(** * Lemmings track format (libdisk/lemmings.c)

    Shallow embedding of the two handlers of [lemmings_handler]:
    - [lemmings_write_mfm] decodes a raw bit stream into a 6 x 1024 byte
      sector block plus a validity map;
    - [lemmings_read_mfm] renders a sector block back into a sequence of
      track-buffer emissions.

    Memory is modelled byte by byte: a [char]/[uint8_t] buffer is a
    [list Z] of values in [0, 256), a [uint16_t] stored with [htons] is the
    two bytes high, low.  Unsigned C arithmetic is written with its
    wrap-around ([mod 2^16], [mod 2^32]). *)

From Stdlib Require Import ZArith List Bool Lia Btauto.
Import ListNotations.
Open Scope Z_scope.

(** ** Bit-stream reader *)

(** Modelled from the spec: the bit-stream reader of libdisk (stream.c),
    which is not part of this handler.  It exposes "fetch next bit"
    (returning -1 at exhaustion), "fetch next N bits", the 32-bit shift
    register [word] of the last bits read, and an increasing index-relative
    bit counter [index_offset]. *)
Record stream := mk_stream {
  word : Z;
  index_offset : Z;
  rest : list bool
}.

(** Modelled from the spec: [stream_next_bit] shifts the next bit into the
    32-bit register [s->word = (s->word << 1) | b] and advances the bit
    counter; at the end of the stream it returns -1. *)
Definition stream_next_bit (s : stream) : Z * stream :=
  match rest s with
  | [] => (-1, s)
  | b :: r =>
      (Z.b2z b, mk_stream ((2 * word s + Z.b2z b) mod 2 ^ 32)
                          (index_offset s + 1) r)
  end.

(** Modelled from the spec: [stream_next_bits s n] reads [n] bits, -1 if
    the stream ends before, 0 otherwise. *)
Fixpoint stream_next_bits (s : stream) (n : nat) : Z * stream :=
  match n with
  | O => (0, s)
  | S m =>
      let '(b, s') := stream_next_bit s in
      if b =? -1 then (-1, s') else stream_next_bits s' m
  end.

(** ** Track header *)

Record track_header := mk_th {
  data_bitoff : Z;
  bytes_per_sector : Z;
  nr_sectors : Z;
  len : Z;
  total_bits : Z;
  valid_sector_map : Z
}.

Definition set_data_bitoff (t : track_header) (o : Z) : track_header :=
  mk_th o (bytes_per_sector t) (nr_sectors t) (len t) (total_bits t)
    (valid_sector_map t).

(** Modelled from the spec: the sector validity bitmask codec
    ([write_valid_sector_map] / [track_valid_sector_map]) persists the
    validity set in the track header and reads it back. *)
Definition write_valid_sector_map (t : track_header) (m : Z) : track_header :=
  mk_th (data_bitoff t) (bytes_per_sector t) (nr_sectors t) (len t)
    (total_bits t) m.

Definition track_valid_sector_map (t : track_header) : Z :=
  valid_sector_map t.

(** ** Byte order *)

(** [htons v] as it lies in memory: high byte first. *)
Definition htons (v : Z) : list Z := [Z.shiftr v 8; Z.land v 255].

(** [ntohs] of the two bytes [hi], [lo] in memory. *)
Definition ntohs (hi lo : Z) : Z := hi * 256 + lo.

(** The [uint16_t] values of a byte buffer read through [ntohs]. *)
Fixpoint ntohs_words (m : list Z) : list Z :=
  match m with
  | hi :: lo :: r => ntohs hi lo :: ntohs_words r
  | _ => []
  end.

(** [uint16_t c; c += x] *)
Definition csum_add (c x : Z) : Z := (c + x) mod 2 ^ 16.

Definition sum16 (ws : list Z) : Z := fold_left csum_add ws 0.

(** [memcpy(&dst[off], src, length src)] *)
Definition memcpy (dst : list Z) (off : nat) (src : list Z) : list Z :=
  firstn off dst ++ src ++ skipn (off + length src) dst.

(** ** Decoder: [lemmings_write_mfm] *)

(** [for (i = 0; i < 6*1024/4; i++) memcpy((uint32_t * )block + i, "NLEM", 4);] *)
Definition sentinel : list Z := concat (repeat [78; 76; 69; 77] 1536).

(** [e = s->word >> 16; o = s->word;
     raw = ((e & 0x5555u) << 1) | (o & 0x5555u)] *)
Definition demod (w : Z) : Z :=
  let e := Z.shiftr w 16 in
  let o := w mod 2 ^ 16 in
  Z.lor (Z.shiftl (Z.land e 0x5555) 1) (Z.land o 0x5555).

(** The loop filling [raw_dat]: [n] words, each from one 32-bit read,
    stored with [htons].  [None] is the [goto done] on exhaustion. *)
Fixpoint read_raw_dat (n : nat) (s : stream) : option (list Z) * stream :=
  match n with
  | O => (Some [], s)
  | S m =>
      let '(r, s1) := stream_next_bits s 32 in
      if r =? -1 then (None, s1)
      else
        let '(raw, s2) := read_raw_dat m s1 in
        (option_map (fun l => htons (demod (word s1)) ++ l) raw, s2)
  end.

(** [sec = &raw_dat[j*513]; csum = ntohs( *sec++)]: the stored checksum of
    sector [j] and its 1024 body bytes. *)
Definition raw_sector_csum (raw : list Z) (j : nat) : Z :=
  ntohs (nth (j * 1026) raw 0) (nth (j * 1026 + 1) raw 0).

Definition raw_sector_body (raw : list Z) (j : nat) : list Z :=
  firstn 1024 (skipn (j * 1026 + 2) raw).

(** [for (k = 0; k < 512; k++) c += ntohs(sec[k]); if (c == csum) ...] *)
Definition sector_ok (raw : list Z) (j : nat) : bool :=
  sum16 (ntohs_words (raw_sector_body raw j)) =? raw_sector_csum raw j.

(** [for (j = 0; j < 6; j++) { ... }]: sectors [j .. j+n-1]; returns the
    block, [valid_blocks] and [nr_valid]. *)
Fixpoint check_sectors (j n : nat) (raw blk : list Z) (valid nr : Z)
  : list Z * Z * Z :=
  match n with
  | O => (blk, valid, nr)
  | S m =>
      if sector_ok raw j then
        check_sectors (S j) m raw
          (memcpy blk (j * 1024) (raw_sector_body raw j))
          (Z.lor valid (Z.shiftl 1 (Z.of_nat j))) (nr + 1)
      else check_sectors (S j) m raw blk valid nr
  end.

(** The state the [while] loop updates. *)
Record dstate := mk_dstate {
  block : list Z;
  valid_blocks : Z;
  th : track_header
}.

(** What one pass of the loop did, for the statements about runs: the
    16-bit windows compared with the mark, and the sector checks run
    (with the candidate offset and the demodulated [raw_dat]). *)
Inductive event :=
| EvWindow (io : Z)
| EvAttempt (idx_off : Z) (raw : list Z).

Record iter_out := mk_out {
  it_done : bool;
  it_s : stream;
  it_st : dstate;
  it_log : list event
}.

(** The loop body after [(uint16_t)s->word == 0x4489], with
    [idx_off = s->index_offset - 15]. *)
Definition sync_attempt (idx_off : Z) (s1 : stream) (st : dstate) : iter_out :=
  let '(r, s2) := stream_next_bits s1 32 in
  if r =? -1 then mk_out true s2 st []
  else if negb (word s2 =? 0x552aaaaa) then mk_out false s2 st []
  else
    match read_raw_dat 3078 s2 with
    | (None, s3) => mk_out true s3 st []
    | (Some raw, s3) =>
        let '(blk, valid, nr) :=
          check_sectors 0 6 raw (block st) (valid_blocks st) 0 in
        let th' := if nr =? 0 then th st else set_data_bitoff (th st) idx_off in
        mk_out false s3 (mk_dstate blk valid th') [EvAttempt idx_off raw]
    end.

(** One pass of [while ((stream_next_bit(s) != -1) &&
    (valid_blocks != ((1u<<6)-1))) { ... }]; [it_done] is the exit of the
    loop (condition false or [goto done]). *)
Definition write_mfm_iter (s : stream) (st : dstate) : iter_out :=
  let '(b, s1) := stream_next_bit s in
  if b =? -1 then mk_out true s1 st []
  else if valid_blocks st =? 63 then mk_out true s1 st []
  else if negb (word s1 mod 2 ^ 16 =? 0x4489)
  then mk_out false s1 st [EvWindow (index_offset s1)]
  else
    let o := sync_attempt ((index_offset s1 - 15) mod 2 ^ 32) s1 st in
    mk_out (it_done o) (it_s o) (it_st o) (EvWindow (index_offset s1) :: it_log o).

(** The loop; every pass reads at least one bit, so [S (length (rest s))]
    passes are enough to reach its exit. *)
Fixpoint write_mfm_loop (fuel : nat) (s : stream) (st : dstate) : stream * dstate :=
  match fuel with
  | O => (s, st)
  | S f =>
      let o := write_mfm_iter s st in
      if it_done o then (it_s o, it_st o)
      else write_mfm_loop f (it_s o) (it_st o)
  end.

(** The events of the same run. *)
Fixpoint write_mfm_log (fuel : nat) (s : stream) (st : dstate) : list event :=
  match fuel with
  | O => []
  | S f =>
      let o := write_mfm_iter s st in
      if it_done o then it_log o
      else it_log o ++ write_mfm_log f (it_s o) (it_st o)
  end.

Definition loop_fuel (s : stream) : nat := S (length (rest s)).

Definition init_dstate (t : track_header) : dstate := mk_dstate sentinel 0 t.

(** [lemmings_write_mfm]: the block ([None] for [NULL]), the header and the
    stream as left by the call. *)
Definition lemmings_write_mfm (tracknr : Z) (t : track_header) (s : stream)
  : option (list Z) * track_header * stream :=
  let '(s', st) := write_mfm_loop (loop_fuel s) s (init_dstate t) in
  if valid_blocks st =? 0 then (None, th st, s')
  else
    let t1 := mk_th (data_bitoff (th st)) 1024 6 (len (th st))
                (total_bits (th st)) (valid_sector_map (th st)) in
    let t2 := mk_th (data_bitoff t1) (bytes_per_sector t1) (nr_sectors t1)
                (nr_sectors t1 * bytes_per_sector t1) (total_bits t1)
                (valid_sector_map t1) in
    (Some (block st), write_valid_sector_map t2 (valid_blocks st), s').

(** ** Encoder: [lemmings_read_mfm] *)

Inductive tbuf_data_type :=
| TBUFDAT_raw | TBUFDAT_all | TBUFDAT_even | TBUFDAT_odd.

(** One call [tbuf_bits(tbuf, speed, type, bits, x)]. *)
Record tbuf_call := mk_call {
  tc_speed : Z;
  tc_type : tbuf_data_type;
  tc_bits : nat;
  tc_val : Z
}.

(** The track buffer as the handler sets it up and fills it. *)
Record track_buffer := mk_tbuf {
  tb_start : Z;
  tb_len : Z;
  tb_calls : list tbuf_call
}.

Definition DEFAULT_SPEED : Z := 1000.

Definition tbuf_bits (ty : tbuf_data_type) (n : nat) (x : Z) : tbuf_call :=
  mk_call DEFAULT_SPEED ty n x.

(** The emissions of one data word: [TBUFDAT_even] then [TBUFDAT_odd]. *)
Definition word_calls (w : Z) : list tbuf_call :=
  [tbuf_bits TBUFDAT_even 16 w; tbuf_bits TBUFDAT_odd 16 w].

(** [for (i = 0; i < 6; i++) { ... }], from sector [i] on, [n] sectors;
    [dat] is the data pointer. *)
Fixpoint read_mfm_sectors (i n : nat) (valid_sectors : Z) (dat : list Z)
  : list tbuf_call :=
  match n with
  | O => []
  | S m =>
      let ws := ntohs_words (firstn 1024 dat) in
      let csum := sum16 ws in
      let csum :=
        if Z.land valid_sectors (Z.shiftl 1 (Z.of_nat i)) =? 0
        then Z.land (Z.lnot csum) 0xffff   (* csum = ~csum *)
        else csum in
      word_calls csum ++ flat_map word_calls ws
        ++ read_mfm_sectors (S i) m valid_sectors (skipn 1024 dat)
  end.

Definition lemmings_read_mfm (tracknr : Z) (t : track_header) (data : list Z)
  : track_buffer :=
  let valid_sectors := track_valid_sector_map t in
  mk_tbuf (data_bitoff t) (total_bits t)
    ([tbuf_bits TBUFDAT_raw 16 0x4489; tbuf_bits TBUFDAT_all 16 0xf000]
       ++ read_mfm_sectors 0 6 valid_sectors data).

(** ** Track-buffer writer *)

(** Modelled from the spec: the track-buffer writer (tbuf.c), which is not
    part of this handler.  [TBUFDAT_raw] emits the bits as they are,
    most significant first; [TBUFDAT_all] emits each data bit as an MFM
    cell (clock bit set only between two zero data bits, then the data
    bit); [TBUFDAT_even] and [TBUFDAT_odd] emit, as MFM cells, the odd
    resp. even bits of the value, i.e. one plane of the interleaving the
    decoder undoes. *)
Definition bits_msb (n : nat) (x : Z) : list bool :=
  map (fun i => Z.testbit x (Z.of_nat i)) (rev (seq 0 n)).

Definition plane_bits (n : nat) (x : Z) : list bool :=
  map (fun i => Z.testbit x (Z.of_nat (2 * i))) (rev (seq 0 n)).

Fixpoint mfm_encode (prev : bool) (ds : list bool) : list bool :=
  match ds with
  | [] => []
  | d :: r => negb (prev || d) :: d :: mfm_encode d r
  end.

Definition tbuf_emit (prev : bool) (c : tbuf_call) : list bool * bool :=
  match tc_type c with
  | TBUFDAT_raw =>
      let ds := bits_msb (tc_bits c) (tc_val c) in (ds, last ds prev)
  | TBUFDAT_all =>
      let ds := bits_msb (tc_bits c) (tc_val c) in
      (mfm_encode prev ds, last ds prev)
  | TBUFDAT_even =>
      let ds := plane_bits (Nat.div (tc_bits c) 2) (Z.shiftr (tc_val c) 1) in
      (mfm_encode prev ds, last ds prev)
  | TBUFDAT_odd =>
      let ds := plane_bits (Nat.div (tc_bits c) 2) (tc_val c) in
      (mfm_encode prev ds, last ds prev)
  end.

Fixpoint tbuf_render (prev : bool) (cs : list tbuf_call) : list bool :=
  match cs with
  | [] => []
  | c :: cs' => let '(bs, p) := tbuf_emit prev c in bs ++ tbuf_render p cs'
  end.

(** Re-reading a rendered track: a reset reader ([word] 0) at counter
    [io0] over the rendered bits. *)
Definition reread (tb : track_buffer) (io0 : Z) : stream :=
  mk_stream 0 io0 (tbuf_render false (tb_calls tb)).

(** Value of a bit list, most significant bit first. *)
Definition bits_val (l : list bool) : Z :=
  fold_left (fun a b => 2 * a + Z.b2z b) l 0.

(** Helper views used in statements. *)

(** Sector [j] (1024 bytes) of a 6 x 1024 byte block. *)
Definition slot (j : nat) (blk : list Z) : list Z :=
  firstn 1024 (skipn (j * 1024) blk).

Definition bytes_ok (l : list Z) : bool :=
  forallb (fun x => (0 <=? x) && (x <? 256)) l.

(** ** Helper views used by the statements and proofs *)

Definition shift_in (a : Z) (b : bool) : Z := (2 * a + Z.b2z b) mod 2 ^ 32.

(** No 16-bit window met while shifting [l] into the register equals the
    mark. *)
Fixpoint no_mark (l : list bool) (w : Z) : bool :=
  match l with
  | [] => true
  | b :: l' => negb (shift_in w b mod 2 ^ 16 =? 0x4489) && no_mark l' (shift_in w b)
  end.

(** The sectors among [j .. j+n-1] whose checksum matches, as a mask, and
    their number. *)
Fixpoint ok_mask (raw : list Z) (j n : nat) : Z :=
  match n with
  | O => 0
  | S m =>
      Z.lor (if sector_ok raw j then Z.shiftl 1 (Z.of_nat j) else 0) (ok_mask raw (S j) m)
  end.

Fixpoint ok_count (raw : list Z) (j n : nat) : Z :=
  match n with
  | O => 0
  | S m => (if sector_ok raw j then 1 else 0) + ok_count raw (S j) m
  end.

(** The checksum word the encoder emits for sector [i] with data words
    [ws], and the 513 words of the sector. *)
Definition enc_csum (V : Z) (i : nat) (ws : list Z) : Z :=
  if Z.land V (Z.shiftl 1 (Z.of_nat i)) =? 0
  then Z.land (Z.lnot (sum16 ws)) 0xffff
  else sum16 ws.

Definition sector_words (V : Z) (i : nat) (body : list Z) : list Z :=
  enc_csum V i (ntohs_words body) :: ntohs_words body.

(** The words the encoder emits for a buffer [B] and mask [V]. *)
Definition enc_words (V : Z) (B : list Z) : list Z :=
  flat_map (fun j => sector_words V j (slot j B)) (seq 0 6).

(** The state after the sector checks of one attempt. *)
Definition after_checks (idx_off : Z) (raw : list Z) (st : dstate) : dstate :=
  let '(blk, valid, nr) := check_sectors 0 6 raw (block st) (valid_blocks st) 0 in
  mk_dstate blk valid (if nr =? 0 then th st else set_data_bitoff (th st) idx_off).

(** The first 15 bits of the mark. *)
Definition mark15 : list bool :=
  [false; true; false; false; false; true; false; false;
   true; false; false; false; true; false; false].

(** The state change an event stands for. *)
Definition apply_event (st : dstate) (e : event) : dstate :=
  match e with
  | EvWindow _ => st
  | EvAttempt idx raw => after_checks idx raw st
  end.

(** Every sector check of a run works on a full [raw_dat]. *)
Definition event_wf (e : event) : Prop :=
  match e with
  | EvWindow _ => True
  | EvAttempt _ raw => length raw = (2 * 3078)%nat
  end.

(** What one event does to the mask, to slot [k] and to the recorded
    offset. *)
Definition ev_mask (v : Z) (e : event) : Z :=
  match e with
  | EvWindow _ => v
  | EvAttempt _ raw => Z.lor v (ok_mask raw 0 6)
  end.

Definition ev_body (k : nat) (b : list Z) (e : event) : list Z :=
  match e with
  | EvWindow _ => b
  | EvAttempt _ raw => if sector_ok raw k then raw_sector_body raw k else b
  end.

Definition ev_off (o : Z) (e : event) : Z :=
  match e with
  | EvWindow _ => o
  | EvAttempt idx raw => if ok_count raw 0 6 =? 0 then o else idx
  end.

(** The windows compared with the mark, in the order of the run. *)
Definition windows (log : list event) : list Z :=
  flat_map (fun e => match e with EvWindow io => [io] | EvAttempt _ _ => [] end) log.

Definition attempts (log : list event) : list Z :=
  flat_map (fun e => match e with EvWindow _ => [] | EvAttempt idx _ => [idx] end) log.

(** Concrete inputs for the examples: an empty header. *)
Definition th0 : track_header := mk_th 0 0 0 0 0 0.

(** A header whose validity map is [V]. *)
Definition th_map (V : Z) : track_header := mk_th 0 0 0 0 0 V.

(** An all-zero sector buffer. *)
Definition B0 : list Z := repeat 0 (6 * 1024).

(** A track with the mark word twice, the second one followed by the
    second mark word: the second mark is the real one. *)
Definition double_mark_stream : stream :=
  mk_stream 0 0 (bits_msb 16 0x4489 ++ bits_msb 16 0x4489 ++ bits_msb 32 0x552aaaaa).

(** * Bits and the stream register *)

Lemma bits_val_acc : forall l a,
  fold_left (fun a b => 2 * a + Z.b2z b) l a = a * 2 ^ Z.of_nat (length l) + bits_val l.
Proof.
  unfold bits_val. induction l as [|b l IH]; intros a; cbn [fold_left length].
  - lia.
  - rewrite (IH (2 * a + Z.b2z b)), (IH (2 * 0 + Z.b2z b)).
    rewrite Nat2Z.inj_succ, Z.pow_succ_r by lia. ring.
Qed.

Lemma bits_val_cons : forall b l,
  bits_val (b :: l) = Z.b2z b * 2 ^ Z.of_nat (length l) + bits_val l.
Proof.
  intros b l. unfold bits_val at 1. simpl. rewrite bits_val_acc. ring.
Qed.

Lemma bits_val_app : forall l1 l2,
  bits_val (l1 ++ l2) = bits_val l1 * 2 ^ Z.of_nat (length l2) + bits_val l2.
Proof.
  intros l1 l2. unfold bits_val at 1. rewrite fold_left_app.
  rewrite bits_val_acc. reflexivity.
Qed.

Lemma bits_val_bound : forall l, 0 <= bits_val l < 2 ^ Z.of_nat (length l).
Proof.
  induction l as [|b l IH].
  - cbn. lia.
  - rewrite bits_val_cons. cbn [length]. rewrite Nat2Z.inj_succ, Z.pow_succ_r by lia.
    destruct b; cbn [Z.b2z]; lia.
Qed.

Lemma bits_val_snoc : forall l b, bits_val (l ++ [b]) = 2 * bits_val l + Z.b2z b.
Proof.
  intros l b. rewrite bits_val_app. unfold bits_val at 2.
  destruct b; cbn [fold_left length Z.of_nat Z.b2z]; lia.
Qed.

Lemma testbit_bits_val_nat : forall l j, (j < length l)%nat ->
  Z.testbit (bits_val l) (Z.of_nat j) = nth (length l - 1 - j) l false.
Proof.
  induction l as [|b l IH] using rev_ind; intros j Hj.
  - cbn in Hj. lia.
  - rewrite bits_val_snoc, length_app. rewrite length_app in Hj. cbn [length] in *.
    destruct j as [|j].
    + rewrite Z.add_comm, Z.mul_comm.
      replace (Z.b2z b + bits_val l * 2) with (2 * bits_val l + Z.b2z b) by ring.
      rewrite Z.testbit_0_r.
      replace (length l + 1 - 1 - 0)%nat with (length l) by lia.
      rewrite app_nth2, Nat.sub_diag by lia. reflexivity.
    + rewrite Nat2Z.inj_succ, Z.testbit_succ_r by lia.
      rewrite app_nth1 by lia.
      replace (length l + 1 - 1 - S j)%nat with (length l - 1 - j)%nat by lia.
      apply IH. lia.
Qed.

Lemma testbit_bits_val : forall l j, 0 <= j < Z.of_nat (length l) ->
  Z.testbit (bits_val l) j = nth (length l - 1 - Z.to_nat j) l false.
Proof.
  intros l j Hj. rewrite <- (Z2Nat.id j) at 1 by lia.
  apply testbit_bits_val_nat. lia.
Qed.

Ltac cases_below_16 j :=
  let Hc := fresh in
  assert (Hc : j = 0 \/ j = 1 \/ j = 2 \/ j = 3 \/ j = 4 \/ j = 5 \/ j = 6 \/
               j = 7 \/ j = 8 \/ j = 9 \/ j = 10 \/ j = 11 \/ j = 12 \/
               j = 13 \/ j = 14 \/ j = 15) by lia;
  repeat destruct Hc as [Hc | Hc]; subst j.

Lemma testbit_5555_high : forall j, 15 <= j -> Z.testbit 0x5555 j = false.
Proof.
  intros j Hj. apply Z.bits_above_log2; cbn; lia.
Qed.

Lemma testbit_16_high : forall w j, 0 <= w < 2 ^ 16 -> 16 <= j -> Z.testbit w j = false.
Proof.
  intros w j Hw Hj. rewrite <- (Z.mod_small w (2 ^ 16)) by lia.
  apply Z.mod_pow2_bits_high. lia.
Qed.

(** The data bits of an MFM-encoded plane are its even-position bits. *)
Lemma plane_low : forall q x,
  Z.land (bits_val (mfm_encode q (plane_bits 8 x))) 0x5555 = Z.land x 0x5555.
Proof.
  intros q x. apply Z.bits_inj'. intros j Hj. rewrite !Z.land_spec.
  destruct (Z.lt_ge_cases j 16) as [Hlt | Hge].
  - rewrite testbit_bits_val.
    2:{ unfold plane_bits. cbn. lia. }
    cases_below_16 j; simpl; btauto.
  - rewrite testbit_5555_high by lia. rewrite !andb_false_r. reflexivity.
Qed.

(** Interleaving the two planes gives back a 16-bit word. *)
Lemma interleave_planes : forall w, 0 <= w < 2 ^ 16 ->
  Z.lor (Z.shiftl (Z.land (Z.shiftr w 1) 0x5555) 1) (Z.land w 0x5555) = w.
Proof.
  intros w Hw. apply Z.bits_inj'. intros j Hj.
  rewrite Z.lor_spec, Z.shiftl_spec, !Z.land_spec by lia.
  destruct (Z.lt_ge_cases j 16) as [Hlt | Hge].
  - destruct (Z.eq_dec j 0) as [-> | Hj0].
    + simpl. btauto.
    + rewrite Z.shiftr_spec by lia.
      cases_below_16 j; try lia; simpl; btauto.
  - rewrite (testbit_5555_high (j - 1)), testbit_5555_high by lia.
    rewrite (testbit_16_high w j) by lia. btauto.
Qed.

Lemma length_mfm_encode : forall q ds, length (mfm_encode q ds) = (2 * length ds)%nat.
Proof.
  intros q ds. revert q. induction ds as [|d ds IH]; intros q; cbn -[Nat.mul].
  - reflexivity.
  - rewrite IH. lia.
Qed.

Lemma length_plane_bits : forall n x, length (plane_bits n x) = n.
Proof.
  intros n x. unfold plane_bits. rewrite length_map, length_rev, length_seq. reflexivity.
Qed.

(** Demodulating the two emitted planes of [w] gives [w] back, whatever
    the clock bits before them. *)
Lemma demod_planes : forall p q w, 0 <= w < 2 ^ 16 ->
  demod (bits_val (mfm_encode p (plane_bits 8 (Z.shiftr w 1))
                   ++ mfm_encode q (plane_bits 8 w))) = w.
Proof.
  intros p q w Hw.
  set (E := mfm_encode p (plane_bits 8 (Z.shiftr w 1))).
  set (O := mfm_encode q (plane_bits 8 w)).
  assert (HE : length E = 16%nat)
    by (unfold E; rewrite length_mfm_encode, length_plane_bits; reflexivity).
  assert (HO : length O = 16%nat)
    by (unfold O; rewrite length_mfm_encode, length_plane_bits; reflexivity).
  pose proof (bits_val_bound E) as BE. pose proof (bits_val_bound O) as BO.
  rewrite HE in BE. rewrite HO in BO.
  change (2 ^ Z.of_nat 16) with 65536 in BE, BO.
  unfold demod. rewrite bits_val_app, HO.
  change (2 ^ Z.of_nat 16) with 65536.
  rewrite Z.shiftr_div_pow2 by lia.
  change (2 ^ 16) with 65536 in *.
  replace ((bits_val E * 65536 + bits_val O) / 65536) with (bits_val E).
  2:{ rewrite Z.div_add_l by lia. rewrite Z.div_small by lia. lia. }
  replace ((bits_val E * 65536 + bits_val O) mod 65536) with (bits_val O).
  2:{ rewrite Z.add_comm, Z.mod_add by lia. rewrite Z.mod_small by lia. reflexivity. }
  unfold E, O. rewrite !plane_low. apply interleave_planes. cbn. lia.
Qed.

(** * The reader *)

Lemma b2z_neq_m1 : forall b, (Z.b2z b =? -1) = false.
Proof. destruct b; reflexivity. Qed.

Lemma next_bits_app : forall l r s, rest s = l ++ r ->
  stream_next_bits s (length l) =
  (0, mk_stream (fold_left shift_in l (word s))
                (index_offset s + Z.of_nat (length l)) r).
Proof.
  induction l as [|b l IH]; intros r s Hs; destruct s as [w io rs]; cbn in Hs; subst rs.
  - cbn. f_equal. f_equal. lia.
  - cbn [length stream_next_bits]. unfold stream_next_bit at 1. cbn [rest word index_offset].
    rewrite b2z_neq_m1. rewrite (IH r) by reflexivity. cbn.
    f_equal. f_equal. lia.
Qed.

Lemma shift_in_fold : forall l w, 0 <= w < 2 ^ 32 ->
  fold_left shift_in l w = (w * 2 ^ Z.of_nat (length l) + bits_val l) mod 2 ^ 32.
Proof.
  induction l as [|b l IH]; intros w Hw.
  - cbn. rewrite Z.mod_small; lia.
  - cbn [fold_left length]. rewrite IH by (apply Z.mod_pos_bound; lia).
    rewrite bits_val_cons. unfold shift_in.
    rewrite <- Z.add_mod_idemp_l by lia. rewrite Z.mul_mod_idemp_l by lia.
    rewrite Z.add_mod_idemp_l by lia.
    f_equal. rewrite Nat2Z.inj_succ, Z.pow_succ_r by lia. ring.
Qed.

(** After 32 bits the register holds exactly those bits. *)
Lemma shift_in_32 : forall l w, length l = 32%nat -> fold_left shift_in l w = bits_val l.
Proof.
  intros [|b l] w Hl; [discriminate|].
  cbn [fold_left]. rewrite shift_in_fold by (apply Z.mod_pos_bound; lia).
  cbn [length] in Hl. injection Hl as Hl.
  pose proof (bits_val_bound (b :: l)) as Hb. cbn [length] in Hb. rewrite Hl in Hb.
  rewrite bits_val_cons, Hl. rewrite bits_val_cons, Hl in Hb. unfold shift_in.
  rewrite <- Z.add_mod_idemp_l by lia. rewrite Z.mul_mod_idemp_l by lia.
  rewrite Z.add_mod_idemp_l by lia.
  replace ((2 * w + Z.b2z b) * 2 ^ Z.of_nat 31 + bits_val l)
    with ((Z.b2z b * 2 ^ Z.of_nat 31 + bits_val l) + w * 2 ^ 32)
    by (change (2 ^ 32) with (2 * 2 ^ Z.of_nat 31); ring).
  rewrite Z.mod_add by lia. apply Z.mod_small. exact Hb.
Qed.

Lemma next_bits_fail : forall n s, fst (stream_next_bits s n) = -1 ->
  rest (snd (stream_next_bits s n)) = [].
Proof.
  induction n as [|n IH]; intros s H; [discriminate|].
  cbn [stream_next_bits] in *. unfold stream_next_bit in *.
  destruct (rest s) as [|b r] eqn:Hr.
  - cbn in *. exact Hr.
  - rewrite b2z_neq_m1 in *. apply IH, H.
Qed.

Lemma next_bits_len : forall n s,
  (length (rest (snd (stream_next_bits s n))) <= length (rest s))%nat /\
  (fst (stream_next_bits s n) <> -1 ->
   length (rest s) = (length (rest (snd (stream_next_bits s n))) + n)%nat).
Proof.
  induction n as [|n IH]; intros s.
  - cbn. split; lia.
  - cbn [stream_next_bits]. unfold stream_next_bit.
    destruct (rest s) as [|b r] eqn:Hr.
    + cbn. rewrite Hr. split; [cbn; lia | congruence].
    + rewrite b2z_neq_m1. destruct (IH (mk_stream ((2 * word s + Z.b2z b) mod 2 ^ 32)
                                         (index_offset s + 1) r)) as [H1 H2].
      cbn [rest length] in *. split; [lia | intros H; specialize (H2 H); lia].
Qed.

Lemma next_bits_short : forall n s, (length (rest s) < n)%nat ->
  fst (stream_next_bits s n) = -1.
Proof.
  induction n as [|n IH]; intros s H; [lia|].
  cbn [stream_next_bits]. unfold stream_next_bit.
  destruct (rest s) as [|b r] eqn:Hr.
  - reflexivity.
  - rewrite b2z_neq_m1. apply IH. cbn in *. lia.
Qed.

Lemma read_raw_dat_fail : forall n s, fst (read_raw_dat n s) = None ->
  rest (snd (read_raw_dat n s)) = [].
Proof.
  induction n as [|n IH]; intros s H; [discriminate|].
  cbn [read_raw_dat] in *.
  destruct (stream_next_bits s 32) as [r s1] eqn:E.
  destruct (r =? -1) eqn:Er.
  - cbn. apply Z.eqb_eq in Er. subst r.
    pose proof (next_bits_fail 32 s) as Hf. rewrite E in Hf. apply Hf. reflexivity.
  - destruct (read_raw_dat n s1) as [[raw|] s2] eqn:E2; cbn in *; [discriminate|].
    specialize (IH s1). rewrite E2 in IH. apply IH. reflexivity.
Qed.

Lemma read_raw_dat_len : forall n s,
  (length (rest (snd (read_raw_dat n s))) <= length (rest s))%nat.
Proof.
  induction n as [|n IH]; intros s; cbn [read_raw_dat].
  - cbn. lia.
  - destruct (next_bits_len 32 s) as [H1 _].
    destruct (stream_next_bits s 32) as [r s1] eqn:E. cbn in H1.
    destruct (r =? -1); [cbn; lia|].
    specialize (IH s1). destruct (read_raw_dat n s1) as [raw s2]. cbn in *. lia.
Qed.

Lemma flat_map_map : forall (A B C : Type) (f : B -> list C) (g : A -> B) l,
  flat_map f (map g l) = flat_map (fun x => f (g x)) l.
Proof.
  intros A B C f g l. induction l as [|x l IH]; cbn; [reflexivity | now rewrite IH].
Qed.

(** Demodulation of an arbitrary bit string: the [j]-th word comes from
    the [j]-th 32-bit slice. *)
Lemma read_raw_dat_slices : forall n l r s, rest s = l ++ r -> length l = (32 * n)%nat ->
  exists s', read_raw_dat n s =
    (Some (flat_map (fun j => htons (demod (bits_val (firstn 32 (skipn (32 * j) l)))))
                    (seq 0 n)), s') /\ rest s' = r.
Proof.
  induction n as [|n IH]; intros l r s Hs Hl.
  - destruct l; [|discriminate]. exists s. split; [reflexivity | exact Hs].
  - cbn [read_raw_dat].
    assert (Hsplit : l = firstn 32 l ++ skipn 32 l) by (symmetry; apply firstn_skipn).
    assert (H32 : length (firstn 32 l) = 32%nat) by (rewrite length_firstn; lia).
    rewrite Hsplit, <- app_assoc in Hs.
    pose proof (next_bits_app _ _ _ Hs) as Hn. rewrite H32 in Hn. rewrite Hn.
    cbn [Z.eqb]. rewrite shift_in_32 by exact H32.
    edestruct (IH (skipn 32 l) r (mk_stream (bits_val (firstn 32 l))
                 (index_offset s + Z.of_nat 32) (skipn 32 l ++ r))) as [s' [E2 Hr]];
      [reflexivity | rewrite length_skipn; lia |].
    cbn [rest word] in E2. rewrite E2. exists s'. split; [|exact Hr].
    cbn [option_map]. f_equal. f_equal.
    cbn [seq flat_map]. rewrite Nat.mul_0_r, skipn_O. f_equal.
    rewrite <- seq_shift, flat_map_map.
    apply flat_map_ext. intros j. rewrite skipn_skipn.
    replace (32 * S j)%nat with (32 * j + 32)%nat by lia. reflexivity.
Qed.

(** The rendering of one word's two plane emissions. *)
Lemma render_word : forall p w cs,
  tbuf_render p (word_calls w ++ cs) =
  mfm_encode p (plane_bits 8 (Z.shiftr w 1))
  ++ mfm_encode (last (plane_bits 8 (Z.shiftr w 1)) p) (plane_bits 8 w)
  ++ tbuf_render (last (plane_bits 8 w) (last (plane_bits 8 (Z.shiftr w 1)) p)) cs.
Proof. reflexivity. Qed.

Lemma read_raw_dat_render : forall ws p r s,
  Forall (fun w => 0 <= w < 2 ^ 16) ws ->
  rest s = tbuf_render p (flat_map word_calls ws) ++ r ->
  exists s', read_raw_dat (length ws) s = (Some (flat_map htons ws), s') /\ rest s' = r.
Proof.
  induction ws as [|w ws IH]; intros p r s Hw Hs.
  - exists s. split; [reflexivity | exact Hs].
  - inversion Hw as [|? ? Hw0 Hws]; subst.
    cbn [flat_map] in Hs. rewrite render_word in Hs.
    set (E := mfm_encode p (plane_bits 8 (Z.shiftr w 1))) in Hs.
    set (O := mfm_encode (last (plane_bits 8 (Z.shiftr w 1)) p) (plane_bits 8 w)) in Hs.
    assert (H32 : length (E ++ O) = 32%nat)
      by (unfold E, O; rewrite length_app, !length_mfm_encode, !length_plane_bits; reflexivity).
    set (q := last (plane_bits 8 w) (last (plane_bits 8 (Z.shiftr w 1)) p)) in Hs.
    assert (Hs' : rest s = (E ++ O) ++ (tbuf_render q (flat_map word_calls ws) ++ r))
      by (rewrite Hs; rewrite !app_assoc; reflexivity).
    cbn [read_raw_dat length].
    pose proof (next_bits_app (E ++ O) _ s Hs') as Hn. rewrite H32 in Hn. rewrite Hn.
    change (0 =? -1) with false. cbv iota beta. rewrite shift_in_32 by exact H32.
    edestruct (IH q r
                 (mk_stream (bits_val (E ++ O)) (index_offset s + Z.of_nat 32)
                    (tbuf_render q (flat_map word_calls ws) ++ r)) Hws) as [s' [E2 Hr]];
      [reflexivity|].
    rewrite E2. exists s'. split; [|exact Hr].
    cbn [option_map word flat_map]. unfold E, O. rewrite demod_planes by exact Hw0. reflexivity.
Qed.

(** The framing emitted by the encoder renders to the raw 0x4489 followed
    by the raw 0x552aaaaa, and leaves a zero data bit behind. *)
Lemma render_header : forall cs,
  tbuf_render false
    ([tbuf_bits TBUFDAT_raw 16 0x4489; tbuf_bits TBUFDAT_all 16 0xf000] ++ cs)
  = bits_msb 16 0x4489 ++ bits_msb 32 0x552aaaaa ++ tbuf_render false cs.
Proof. intros cs. reflexivity. Qed.


Lemma iter_skip : forall b r w io st,
  (valid_blocks st =? 63) = false -> (shift_in w b mod 2 ^ 16 =? 0x4489) = false ->
  write_mfm_iter (mk_stream w io (b :: r)) st =
  mk_out false (mk_stream (shift_in w b) (io + 1) r) st [EvWindow (io + 1)].
Proof.
  intros b r w io st Hv Hm. unfold write_mfm_iter, stream_next_bit.
  cbn [rest word index_offset]. rewrite b2z_neq_m1, Hv.
  unfold shift_in in Hm. rewrite Hm. reflexivity.
Qed.

Lemma iter_match : forall b r w io st,
  (valid_blocks st =? 63) = false -> (shift_in w b mod 2 ^ 16 =? 0x4489) = true ->
  write_mfm_iter (mk_stream w io (b :: r)) st =
  let o := sync_attempt ((io + 1 - 15) mod 2 ^ 32)
             (mk_stream (shift_in w b) (io + 1) r) st in
  mk_out (it_done o) (it_s o) (it_st o) (EvWindow (io + 1) :: it_log o).
Proof.
  intros b r w io st Hv Hm. unfold write_mfm_iter, stream_next_bit.
  cbn [rest word index_offset]. rewrite b2z_neq_m1, Hv.
  unfold shift_in in Hm. rewrite Hm. reflexivity.
Qed.

Lemma loop_scan : forall l w io r f st,
  (valid_blocks st =? 63) = false -> no_mark l w = true ->
  write_mfm_loop (length l + f) (mk_stream w io (l ++ r)) st =
  write_mfm_loop f (mk_stream (fold_left shift_in l w) (io + Z.of_nat (length l)) r) st.
Proof.
  induction l as [|b l IH]; intros w io r f st Hv Hn.
  - cbn. f_equal. f_equal. lia.
  - cbn [no_mark] in Hn. apply andb_true_iff in Hn as [Hm Hn].
    apply negb_true_iff in Hm.
    cbn [length Nat.add write_mfm_loop app]. rewrite iter_skip by assumption.
    cbn [it_done it_s it_st]. rewrite IH by assumption.
    cbn [fold_left]. f_equal. f_equal. lia.
Qed.

Lemma log_scan : forall l w io r f st,
  (valid_blocks st =? 63) = false -> no_mark l w = true ->
  write_mfm_log (length l + f) (mk_stream w io (l ++ r)) st =
  map (fun k => EvWindow (io + Z.of_nat k)) (seq 1 (length l))
  ++ write_mfm_log f (mk_stream (fold_left shift_in l w) (io + Z.of_nat (length l)) r) st.
Proof.
  induction l as [|b l IH]; intros w io r f st Hv Hn.
  - cbn. f_equal. f_equal. lia.
  - cbn [no_mark] in Hn. apply andb_true_iff in Hn as [Hm Hn].
    apply negb_true_iff in Hm.
    cbn [length Nat.add write_mfm_log app]. rewrite iter_skip by assumption.
    cbn [it_done it_s it_st it_log]. rewrite IH by assumption.
    cbn [fold_left seq map app]. f_equal.
    rewrite <- (seq_shift (length l) 1), map_map. f_equal.
    + apply map_ext. intros k. f_equal. lia.
    + f_equal. f_equal. lia.
Qed.

(** * Byte order *)

Lemma htons_ntohs : forall hi lo, 0 <= hi < 256 -> 0 <= lo < 256 ->
  htons (ntohs hi lo) = [hi; lo].
Proof.
  intros hi lo Hh Hl. unfold htons, ntohs. f_equal; [|f_equal].
  - rewrite Z.shiftr_div_pow2 by lia. change (2 ^ 8) with 256.
    rewrite Z.div_add_l by lia. rewrite Z.div_small by lia. lia.
  - change 255 with (Z.ones 8). rewrite Z.land_ones by lia. change (2 ^ 8) with 256.
    rewrite Z.add_comm, Z.mod_add by lia. apply Z.mod_small; lia.
Qed.

Lemma ntohs_htons : forall w, 0 <= w < 2 ^ 16 ->
  ntohs (Z.shiftr w 8) (Z.land w 255) = w.
Proof.
  intros w Hw. unfold ntohs. rewrite Z.shiftr_div_pow2 by lia.
  change 255 with (Z.ones 8). rewrite Z.land_ones by lia. change (2 ^ 8) with 256.
  pose proof (Z.div_mod w 256). lia.
Qed.

Lemma ntohs_range : forall hi lo, 0 <= hi < 256 -> 0 <= lo < 256 ->
  0 <= ntohs hi lo < 2 ^ 16.
Proof. intros hi lo Hh Hl. unfold ntohs. change (2 ^ 16) with 65536. lia. Qed.

Lemma htons_length : forall w, length (htons w) = 2%nat.
Proof. reflexivity. Qed.

Lemma htons_bytes : forall w, 0 <= w < 2 ^ 16 -> bytes_ok (htons w) = true.
Proof.
  intros w Hw. unfold bytes_ok, htons. cbn [forallb].
  rewrite Z.shiftr_div_pow2 by lia. change 255 with (Z.ones 8).
  rewrite Z.land_ones by lia. change (2 ^ 8) with 256. change (2 ^ 16) with 65536 in Hw.
  pose proof (Z.mod_pos_bound w 256). 
  assert (0 <= w / 256 < 256) by (split; [apply Z.div_pos | apply Z.div_lt_upper_bound]; lia).
  repeat (apply andb_true_iff; split); try reflexivity;
    (apply Z.leb_le || apply Z.ltb_lt); lia.
Qed.

Lemma bytes_ok_app : forall l1 l2, bytes_ok (l1 ++ l2) = bytes_ok l1 && bytes_ok l2.
Proof. intros. unfold bytes_ok. apply forallb_app. Qed.

Lemma bytes_ok_firstn : forall n l, bytes_ok l = true -> bytes_ok (firstn n l) = true.
Proof.
  intros n l H. rewrite <- (firstn_skipn n l), bytes_ok_app in H.
  apply andb_true_iff in H. tauto.
Qed.

Lemma bytes_ok_skipn : forall n l, bytes_ok l = true -> bytes_ok (skipn n l) = true.
Proof.
  intros n l H. rewrite <- (firstn_skipn n l), bytes_ok_app in H.
  apply andb_true_iff in H. tauto.
Qed.

Lemma length_ntohs_words : forall n l, length l = (2 * n)%nat ->
  length (ntohs_words l) = n.
Proof.
  induction n as [|n IH]; intros l Hl.
  - destruct l; [reflexivity | discriminate].
  - destruct l as [|a [|b l]]; cbn in Hl; try lia.
    cbn. rewrite (IH l); lia.
Qed.

Lemma ntohs_words_app : forall n l1 l2, length l1 = (2 * n)%nat ->
  ntohs_words (l1 ++ l2) = ntohs_words l1 ++ ntohs_words l2.
Proof.
  induction n as [|n IH]; intros l1 l2 Hl.
  - destruct l1; [reflexivity | discriminate].
  - destruct l1 as [|a [|b l1]]; cbn in Hl; try lia.
    cbn. rewrite (IH l1 l2) by lia. reflexivity.
Qed.

Lemma htons_ntohs_words : forall n l, length l = (2 * n)%nat -> bytes_ok l = true ->
  flat_map htons (ntohs_words l) = l.
Proof.
  induction n as [|n IH]; intros l Hl Hb.
  - destruct l; [reflexivity | discriminate].
  - destruct l as [|a [|b l]]; cbn in Hl; try lia.
    unfold bytes_ok in Hb. cbn [forallb] in Hb.
    rewrite !andb_true_iff, !Z.leb_le, !Z.ltb_lt in Hb.
    destruct Hb as [[? ?] [[? ?] Hb]].
    cbn [ntohs_words flat_map]. rewrite htons_ntohs by lia.
    cbn. f_equal. f_equal. apply (IH l); [lia | exact Hb].
Qed.

Lemma ntohs_words_htons : forall ws, Forall (fun w => 0 <= w < 2 ^ 16) ws ->
  ntohs_words (flat_map htons ws) = ws.
Proof.
  induction 1 as [|w ws Hw _ IH]; [reflexivity|].
  cbn [flat_map]. unfold htons at 1. cbn [app ntohs_words].
  rewrite ntohs_htons by exact Hw. f_equal. exact IH.
Qed.

Lemma ntohs_words_range : forall l, bytes_ok l = true ->
  Forall (fun w => 0 <= w < 2 ^ 16) (ntohs_words l).
Proof.
  fix IH 1. intros [|a [|b l]] Hb; cbn; try constructor.
  - unfold bytes_ok in Hb. cbn [forallb] in Hb.
    rewrite !andb_true_iff, !Z.leb_le, !Z.ltb_lt in Hb.
    apply ntohs_range; lia.
  - apply IH. unfold bytes_ok in *. cbn [forallb] in Hb.
    rewrite !andb_true_iff in Hb. tauto.
Qed.

Lemma sum16_range : forall ws, 0 <= sum16 ws < 2 ^ 16.
Proof.
  intros ws. unfold sum16.
  assert (H : forall c, 0 <= c < 2 ^ 16 -> 0 <= fold_left csum_add ws c < 2 ^ 16).
  { induction ws as [|x ws IH]; intros c Hc; cbn; [exact Hc|].
    apply IH. unfold csum_add. apply Z.mod_pos_bound. lia. }
  apply H. lia.
Qed.

(** * Slots and [memcpy] *)

Lemma length_memcpy : forall dst off src, (off + length src <= length dst)%nat ->
  length (memcpy dst off src) = length dst.
Proof.
  intros dst off src H. unfold memcpy.
  rewrite !length_app, length_firstn, length_skipn. lia.
Qed.

Lemma slot_memcpy : forall blk j k src,
  length blk = (6 * 1024)%nat -> length src = 1024%nat -> (j < 6)%nat -> (k < 6)%nat ->
  slot k (memcpy blk (j * 1024) src) = if Nat.eqb k j then src else slot k blk.
Proof.
  intros blk j k src Hb Hs Hj Hk. unfold slot, memcpy. rewrite Hs.
  destruct (Nat.eqb_spec k j) as [->|Hne].
  - rewrite skipn_app, length_firstn, Nat.min_l by lia. rewrite Nat.sub_diag.
    rewrite skipn_all2 by (rewrite length_firstn; lia). cbn [app skipn].
    rewrite firstn_app, Hs, Nat.sub_diag, firstn_all2 by lia. cbn. apply app_nil_r.
  - destruct (Nat.lt_ge_cases k j) as [Hlt|Hge].
    + rewrite skipn_app, length_firstn, Nat.min_l by lia.
      replace (k * 1024 - j * 1024)%nat with 0%nat by lia. cbn [skipn].
      rewrite firstn_app, length_skipn, length_firstn, Nat.min_l by lia.
      replace (1024 - (j * 1024 - k * 1024))%nat with 0%nat by lia.
      rewrite firstn_O, app_nil_r.
      rewrite skipn_firstn_comm, firstn_firstn. f_equal. lia.
    + assert (Hgt : (j < k)%nat) by lia.
      rewrite app_assoc, skipn_app, length_app, length_firstn, Hs, Nat.min_l by lia.
      rewrite skipn_all2 by (rewrite length_app, length_firstn, Hs; lia). cbn [app].
      rewrite skipn_skipn. f_equal. f_equal. lia.
Qed.

Lemma skipn_flat_map_seq : forall (A : Type) (g : nat -> list A) L n j k,
  (forall i, (i < k + n)%nat -> length (g i) = L) -> (j <= n)%nat ->
  skipn (j * L) (flat_map g (seq k n)) = flat_map g (seq (k + j) (n - j)).
Proof.
  intros A g L n j. revert n. induction j as [|j IH]; intros n k HL Hj.
  - cbn. rewrite Nat.add_0_r, Nat.sub_0_r. reflexivity.
  - destruct n as [|n]; [lia|]. cbn [seq flat_map].
    replace (S j * L)%nat with (j * L + L)%nat by lia.
    rewrite <- skipn_skipn, skipn_app, (HL k) by lia. rewrite Nat.sub_diag.
    rewrite (skipn_all2 (g k)) by (rewrite HL; lia).
    cbn [app skipn]. rewrite IH; [| intros i Hi; apply HL; lia | lia].
    f_equal. f_equal. lia.
Qed.

(** * Sector checks *)

Lemma testbit_shiftl_1 : forall j k, 0 <= k ->
  Z.testbit (Z.shiftl 1 (Z.of_nat j)) k = (k =? Z.of_nat j).
Proof.
  intros j k Hk. rewrite Z.shiftl_1_l, Z.pow2_bits_eqb by lia. apply Z.eqb_sym.
Qed.

Lemma testbit_ok_mask : forall raw n j k, 0 <= k ->
  Z.testbit (ok_mask raw j n) k =
  (Z.of_nat j <=? k) && (k <? Z.of_nat (j + n)) && sector_ok raw (Z.to_nat k).
Proof.
  intros raw n. induction n as [|n IH]; intros j k Hk.
  - cbn [ok_mask]. rewrite Z.testbit_0_l. rewrite Nat.add_0_r.
    destruct (Z.leb_spec (Z.of_nat j) k), (Z.ltb_spec k (Z.of_nat j));
      first [reflexivity | lia].
  - cbn [ok_mask]. rewrite Z.lor_spec, IH by exact Hk.
    destruct (Z.eq_dec k (Z.of_nat j)) as [->|Hne].
    + rewrite Nat2Z.id. destruct (sector_ok raw j).
      * rewrite testbit_shiftl_1, Z.eqb_refl by lia. cbn.
        replace (Z.of_nat j <=? Z.of_nat j) with true by (symmetry; apply Z.leb_le; lia).
        replace (Z.of_nat j <? Z.of_nat (j + S n)) with true by (symmetry; apply Z.ltb_lt; lia).
        reflexivity.
      * rewrite Z.testbit_0_l.
        replace (Z.of_nat (S j) <=? Z.of_nat j) with false by (symmetry; apply Z.leb_gt; lia).
        cbn. rewrite !andb_false_r. reflexivity.
    + assert (E : (if sector_ok raw j then Z.testbit (Z.shiftl 1 (Z.of_nat j)) k
                   else Z.testbit 0 k) = false)
        by (destruct (sector_ok raw j); [rewrite testbit_shiftl_1 by lia; apply Z.eqb_neq; lia
                                        | apply Z.testbit_0_l]).
      replace (Z.testbit (if sector_ok raw j then Z.shiftl 1 (Z.of_nat j) else 0) k) with false
        by (rewrite <- E; destruct (sector_ok raw j); reflexivity).
      cbn [orb].
      replace (Z.of_nat (S j) <=? k) with (Z.of_nat j <=? k)
        by (destruct (Z.leb_spec (Z.of_nat j) k), (Z.leb_spec (Z.of_nat (S j)) k);
            first [reflexivity | lia]).
      replace (Z.of_nat (S j + n)) with (Z.of_nat (j + S n)) by lia. reflexivity.
Qed.

Lemma check_sectors_spec : forall n j raw blk valid nr,
  length blk = (6 * 1024)%nat -> (j + n <= 6)%nat ->
  (forall k, (k < 6)%nat -> length (raw_sector_body raw k) = 1024%nat) ->
  let '(blk', valid', nr') := check_sectors j n raw blk valid nr in
  length blk' = (6 * 1024)%nat /\
  valid' = Z.lor valid (ok_mask raw j n) /\
  nr' = nr + ok_count raw j n /\
  (forall k, (k < 6)%nat ->
     slot k blk' = if (j <=? k)%nat && (k <? j + n)%nat && sector_ok raw k
                   then raw_sector_body raw k else slot k blk).
Proof.
  induction n as [|n IH]; intros j raw blk valid nr Hb Hj Hbody.
  - cbn [check_sectors ok_mask ok_count]. rewrite Z.lor_0_r, Z.add_0_r. repeat split; try assumption.
    intros k Hk. rewrite Nat.add_0_r.
    destruct (Nat.leb_spec j k), (Nat.ltb_spec k j); first [reflexivity | lia].
  - cbn [check_sectors ok_mask ok_count]. destruct (sector_ok raw j) eqn:Ek.
    + assert (Hl : length (memcpy blk (j * 1024) (raw_sector_body raw j)) = (6 * 1024)%nat)
        by (rewrite length_memcpy; [exact Hb | rewrite Hbody; lia]).
      specialize (IH (S j) raw _ (Z.lor valid (Z.shiftl 1 (Z.of_nat j))) (nr + 1) Hl
                    ltac:(lia) Hbody).
      destruct (check_sectors (S j) n raw _ _ _) as [[blk' valid'] nr'].
      destruct IH as [H1 [H2 [H3 H4]]]. repeat split.
      * exact H1.
      * rewrite H2, Z.lor_assoc. reflexivity.
      * rewrite H3. lia.
      * intros k Hk. rewrite H4 by exact Hk. rewrite slot_memcpy by (try apply Hbody; lia).
        destruct (Nat.eqb_spec k j) as [->|Hne].
        -- rewrite Nat.leb_refl, Ek.
           replace (S j <=? j)%nat with false by (symmetry; apply Nat.leb_gt; lia).
           replace (j <? j + S n)%nat with true by (symmetry; apply Nat.ltb_lt; lia).
           cbn [andb]. reflexivity.
        -- destruct (Nat.leb_spec (S j) k), (Nat.leb_spec j k);
             try lia; cbn [andb]; try reflexivity.
           replace (k <? S j + n)%nat with (k <? j + S n)%nat by (f_equal; lia). reflexivity.
    + specialize (IH (S j) raw blk valid nr Hb ltac:(lia) Hbody).
      destruct (check_sectors (S j) n raw _ _ _) as [[blk' valid'] nr'].
      destruct IH as [H1 [H2 [H3 H4]]]. repeat split.
      * exact H1.
      * rewrite H2, Z.lor_0_l. reflexivity.
      * rewrite H3. lia.
      * intros k Hk. rewrite H4 by exact Hk.
        destruct (Nat.eqb_spec k j) as [->|Hne].
        -- rewrite Ek, !andb_false_r.
           replace (S j <=? j)%nat with false by (symmetry; apply Nat.leb_gt; lia).
           reflexivity.
        -- destruct (Nat.leb_spec (S j) k), (Nat.leb_spec j k);
             try lia; cbn [andb]; try reflexivity.
           replace (k <? S j + n)%nat with (k <? j + S n)%nat by (f_equal; lia). reflexivity.
Qed.

(** * The encoder's words *)

Lemma slot_skipn : forall j dat, slot j (skipn 1024 dat) = slot (S j) dat.
Proof.
  intros j dat. unfold slot. rewrite skipn_skipn. f_equal. f_equal. lia.
Qed.

Lemma read_mfm_sectors_words : forall n i V dat,
  read_mfm_sectors i n V dat =
  flat_map (fun j => flat_map word_calls (sector_words V (i + j) (slot j dat))) (seq 0 n).
Proof.
  induction n as [|n IH]; intros i V dat; [reflexivity|].
  cbn [read_mfm_sectors]. rewrite IH.
  cbn [seq flat_map]. rewrite <- (seq_shift n 0), flat_map_map. rewrite Nat.add_0_r.
  assert (E : flat_map word_calls (sector_words V i (slot 0 dat)) =
              word_calls (enc_csum V i (ntohs_words (firstn 1024 dat)))
              ++ flat_map word_calls (ntohs_words (firstn 1024 dat))) by reflexivity.
  rewrite E, <- app_assoc. f_equal. f_equal. apply flat_map_ext. intros j.
  rewrite slot_skipn. f_equal. f_equal. lia.
Qed.

Lemma flat_map_flat_map : forall (A B C : Type) (f : B -> list C) (g : A -> list B) l,
  flat_map f (flat_map g l) = flat_map (fun x => flat_map f (g x)) l.
Proof.
  intros A B C f g l. induction l as [|x l IH]; [reflexivity|].
  cbn [flat_map]. rewrite flat_map_app, IH. reflexivity.
Qed.

Lemma lnot_csum_neq : forall c, 0 <= c < 2 ^ 16 -> Z.land (Z.lnot c) 0xffff <> c.
Proof.
  intros c Hc E. assert (H := f_equal (fun x => Z.testbit x 0) E). cbn beta in H.
  rewrite Z.land_spec, Z.lnot_spec in H by lia.
  destruct (Z.testbit c 0); discriminate H.
Qed.

Lemma mask_bit : forall V i,
  (Z.land V (Z.shiftl 1 (Z.of_nat i)) =? 0) = negb (Z.testbit V (Z.of_nat i)).
Proof.
  intros V i. destruct (Z.testbit V (Z.of_nat i)) eqn:E; cbn [negb].
  - apply Z.eqb_neq. intros H.
    assert (H' := f_equal (fun x => Z.testbit x (Z.of_nat i)) H). cbn beta in H'.
    rewrite Z.land_spec, testbit_shiftl_1, Z.eqb_refl, E, Z.testbit_0_l in H' by lia.
    discriminate H'.
  - apply Z.eqb_eq. apply Z.bits_inj'. intros n Hn.
    rewrite Z.land_spec, testbit_shiftl_1, Z.testbit_0_l by lia.
    destruct (Z.eqb_spec n (Z.of_nat i)) as [->|]; [rewrite E; reflexivity | apply andb_false_r].
Qed.

Lemma enc_csum_range : forall V i ws, 0 <= enc_csum V i ws < 2 ^ 16.
Proof.
  intros V i ws. unfold enc_csum. destruct (_ =? 0).
  - change 0xffff with (Z.ones 16). rewrite Z.land_ones by lia. apply Z.mod_pos_bound. lia.
  - apply sum16_range.
Qed.

(** The checksum the encoder emits matches the data exactly when the
    sector's validity bit is set. *)
Lemma enc_csum_ok : forall V i ws,
  (sum16 ws =? enc_csum V i ws) = Z.testbit V (Z.of_nat i).
Proof.
  intros V i ws. unfold enc_csum. rewrite mask_bit.
  destruct (Z.testbit V (Z.of_nat i)); cbn [negb].
  - apply Z.eqb_refl.
  - apply Z.eqb_neq. intros E. apply (lnot_csum_neq (sum16 ws)); [apply sum16_range | auto].
Qed.

Lemma flat_map_ext_in : forall (A B : Type) (f g : A -> list B) l,
  (forall x, In x l -> f x = g x) -> flat_map f l = flat_map g l.
Proof.
  intros A B f g l H. induction l as [|x l IH]; [reflexivity|].
  cbn [flat_map]. rewrite H by (left; reflexivity). f_equal. apply IH.
  intros y Hy. apply H. right. exact Hy.
Qed.

Lemma length_flat_map_const : forall (A B : Type) (f : A -> list B) L l,
  (forall x, In x l -> length (f x) = L) -> length (flat_map f l) = (length l * L)%nat.
Proof.
  intros A B f L l H. induction l as [|x l IH]; [reflexivity|].
  cbn [flat_map length]. rewrite length_app, (H x) by (left; reflexivity).
  rewrite IH; [lia|]. intros y Hy. apply H. right. exact Hy.
Qed.

Lemma Forall_flat_map_intro : forall (A B : Type) (P : B -> Prop) (f : A -> list B) l,
  (forall x, In x l -> Forall P (f x)) -> Forall P (flat_map f l).
Proof.
  intros A B P f l H. apply Forall_forall. intros y Hy.
  apply in_flat_map in Hy as [x [Hx Hy]]. specialize (H x Hx).
  rewrite Forall_forall in H. apply H, Hy.
Qed.

Lemma length_slot : forall j B, length B = (6 * 1024)%nat -> (j < 6)%nat ->
  length (slot j B) = 1024%nat.
Proof.
  intros j B HB Hj. unfold slot. rewrite length_firstn, length_skipn. lia.
Qed.

Lemma bytes_ok_slot : forall j B, bytes_ok B = true -> bytes_ok (slot j B) = true.
Proof. intros j B H. unfold slot. apply bytes_ok_firstn, bytes_ok_skipn, H. Qed.

Lemma enc_words_length : forall V B, length B = (6 * 1024)%nat ->
  length (enc_words V B) = 3078%nat.
Proof.
  intros V B HB. unfold enc_words. rewrite (length_flat_map_const _ _ _ 513).
  - reflexivity.
  - intros j Hj. apply in_seq in Hj. unfold sector_words. cbn [length].
    rewrite (length_ntohs_words 512); [reflexivity|]. rewrite length_slot by (auto; lia). reflexivity.
Qed.

Lemma enc_words_range : forall V B, bytes_ok B = true ->
  Forall (fun w => 0 <= w < 2 ^ 16) (enc_words V B).
Proof.
  intros V B HB. unfold enc_words. apply Forall_flat_map_intro. intros j _.
  unfold sector_words. constructor; [apply enc_csum_range|].
  apply ntohs_words_range, bytes_ok_slot, HB.
Qed.

Lemma enc_words_raw : forall V B, length B = (6 * 1024)%nat -> bytes_ok B = true ->
  flat_map htons (enc_words V B) =
  flat_map (fun j => htons (enc_csum V j (ntohs_words (slot j B))) ++ slot j B) (seq 0 6).
Proof.
  intros V B HL HB. unfold enc_words. rewrite flat_map_flat_map.
  apply flat_map_ext_in. intros j Hj. apply in_seq in Hj.
  unfold sector_words. cbn [flat_map]. f_equal.
  apply (htons_ntohs_words 512).
  - rewrite length_slot by (auto; lia). reflexivity.
  - apply bytes_ok_slot, HB.
Qed.

(** The encoder's calls are the framing followed by the calls of its words. *)
Lemma read_mfm_calls : forall tr t B,
  tb_calls (lemmings_read_mfm tr t B) =
  [tbuf_bits TBUFDAT_raw 16 0x4489; tbuf_bits TBUFDAT_all 16 0xf000]
  ++ flat_map word_calls (enc_words (track_valid_sector_map t) B).
Proof.
  intros tr t B. cbn [lemmings_read_mfm tb_calls]. f_equal.
  rewrite read_mfm_sectors_words. unfold enc_words. rewrite flat_map_flat_map. reflexivity.
Qed.

(** The sector views of a raw buffer made of six 1026-byte chunks. *)
Lemma skipn_chunks : forall (g : nat -> list Z) j,
  (forall i, (i < 6)%nat -> length (g i) = 1026%nat) -> (j < 6)%nat ->
  skipn (j * 1026) (flat_map g (seq 0 6)) = g j ++ flat_map g (seq (S j) (5 - j)).
Proof.
  intros g j HL Hj. rewrite (skipn_flat_map_seq _ g 1026 6 j 0) by (auto; lia).
  cbn [Nat.add]. replace (6 - j)%nat with (S (5 - j)) by lia. reflexivity.
Qed.

Lemma chunk_views : forall (g : nat -> list Z) j,
  (forall i, (i < 6)%nat -> length (g i) = 1026%nat) -> (j < 6)%nat ->
  raw_sector_csum (flat_map g (seq 0 6)) j = ntohs (nth 0 (g j) 0) (nth 1 (g j) 0) /\
  raw_sector_body (flat_map g (seq 0 6)) j = firstn 1024 (skipn 2 (g j)).
Proof.
  intros g j HL Hj. pose proof (skipn_chunks g j HL Hj) as E.
  unfold raw_sector_csum, raw_sector_body. split.
  - rewrite <- (Nat.add_0_r (j * 1026)) at 1. rewrite <- !nth_skipn, E.
    rewrite !app_nth1 by (rewrite HL; lia). reflexivity.
  - rewrite Nat.add_comm, <- skipn_skipn, E, skipn_app, firstn_app.
    rewrite length_skipn, HL by exact Hj.
    replace (1024 - (1026 - 2))%nat with 0%nat by lia. rewrite firstn_O. apply app_nil_r.
Qed.

(** * One synchronised pass *)

Lemma sync_attempt_ok : forall idx s1 st s2 raw s3,
  stream_next_bits s1 32 = (0, s2) -> word s2 = 0x552aaaaa ->
  read_raw_dat 3078 s2 = (Some raw, s3) ->
  sync_attempt idx s1 st = mk_out false s3 (after_checks idx raw st) [EvAttempt idx raw].
Proof.
  intros idx s1 st s2 raw s3 H1 H2 H3. unfold sync_attempt. rewrite H1.
  change (0 =? -1) with false. cbv iota beta. rewrite H2, Z.eqb_refl. cbn [negb].
  rewrite H3. unfold after_checks.
  destruct (check_sectors 0 6 raw (block st) (valid_blocks st) 0) as [[? ?] ?]. reflexivity.
Qed.

Lemma sync_rendered : forall idx w io ws p r st,
  length ws = 3078%nat -> Forall (fun x => 0 <= x < 2 ^ 16) ws ->
  exists s3, rest s3 = r /\
    sync_attempt idx
      (mk_stream w io (bits_msb 32 0x552aaaaa ++ tbuf_render p (flat_map word_calls ws) ++ r)) st
    = mk_out false s3 (after_checks idx (flat_map htons ws) st)
        [EvAttempt idx (flat_map htons ws)].
Proof.
  intros idx w io ws p r st Hl Hw.
  pose proof (next_bits_app (bits_msb 32 0x552aaaaa)
                (tbuf_render p (flat_map word_calls ws) ++ r)
                (mk_stream w io (bits_msb 32 0x552aaaaa
                                 ++ tbuf_render p (flat_map word_calls ws) ++ r))
                eq_refl) as Hn.
  change (length (bits_msb 32 0x552aaaaa)) with 32%nat in Hn.
  destruct (read_raw_dat_render ws p r
              (mk_stream (fold_left shift_in (bits_msb 32 0x552aaaaa) w)
                 (io + Z.of_nat 32) (tbuf_render p (flat_map word_calls ws) ++ r)) Hw eq_refl)
    as [s3 [E3 Hr]].
  rewrite Hl in E3. exists s3. split; [exact Hr|].
  apply (sync_attempt_ok _ _ _ _ _ _ Hn); [|exact E3].
  cbn [word]. rewrite shift_in_32 by reflexivity. reflexivity.
Qed.

Lemma iter_end : forall s st, rest s = [] -> write_mfm_iter s st = mk_out true s st [].
Proof. intros s st H. unfold write_mfm_iter, stream_next_bit. rewrite H. reflexivity. Qed.

Lemma loop_end : forall f s st, rest s = [] ->
  write_mfm_loop (S f) s st = (s, st).
Proof.
  intros f s st H. cbn [write_mfm_loop]. unfold write_mfm_iter, stream_next_bit.
  rewrite H. reflexivity.
Qed.

Lemma log_end : forall f s st, rest s = [] -> write_mfm_log (S f) s st = [].
Proof.
  intros f s st H. cbn [write_mfm_log]. unfold write_mfm_iter, stream_next_bit.
  rewrite H. reflexivity.
Qed.

Lemma mark_bits : bits_msb 16 0x4489 = mark15 ++ [true].
Proof. reflexivity. Qed.

(** The decoder over a clean rendering of 3078 words: one synchronised
    pass, started by the mark at the head of the stream, then the end of
    the stream. *)
Lemma loop_rendered : forall ws io st f,
  length ws = 3078%nat -> Forall (fun x => 0 <= x < 2 ^ 16) ws ->
  valid_blocks st = 0 ->
  exists s', rest s' = [] /\
    write_mfm_loop (17 + f)
      (mk_stream 0 io (bits_msb 16 0x4489 ++ bits_msb 32 0x552aaaaa
                       ++ tbuf_render false (flat_map word_calls ws)))
      st
    = (s', after_checks ((io + 1) mod 2 ^ 32) (flat_map htons ws) st).
Proof.
  intros ws io st f Hl Hw Hv.
  rewrite mark_bits, <- app_assoc. cbn [app].
  change (17 + f)%nat with (length mark15 + S (S f))%nat.
  rewrite loop_scan by (rewrite ?Hv; reflexivity).
  change (fold_left shift_in mark15 0) with 8772. change (Z.of_nat (length mark15)) with 15.
  cbn [write_mfm_loop]. rewrite iter_match by (rewrite ?Hv; reflexivity).
  destruct (sync_rendered ((io + 15 + 1 - 15) mod 2 ^ 32) (shift_in 8772 true) (io + 15 + 1)
              ws false [] st Hl Hw) as [s3 [Hr E]].
  rewrite app_nil_r in E. cbv zeta. rewrite E. cbn [it_done it_s it_st].
  rewrite iter_end by exact Hr. cbn [it_done it_s it_st]. exists s3. split; [exact Hr|].
  f_equal. f_equal. f_equal. lia.
Qed.

Lemma ok_count_nonneg : forall raw j n, 0 <= ok_count raw j n.
Proof.
  intros raw j n. revert j. induction n as [|n IH]; intros j; cbn [ok_count]; [lia|].
  specialize (IH (S j)). destruct (sector_ok raw j); lia.
Qed.

Lemma ok_count_zero : forall raw j n, (ok_count raw j n =? 0) = (ok_mask raw j n =? 0).
Proof.
  intros raw j n. revert j. induction n as [|n IH]; intros j; [reflexivity|].
  cbn [ok_count ok_mask]. pose proof (ok_count_nonneg raw (S j) n) as Hc.
  destruct (sector_ok raw j).
  - replace (1 + ok_count raw (S j) n =? 0) with false by (symmetry; apply Z.eqb_neq; lia).
    symmetry. apply Z.eqb_neq. intros H. apply Z.lor_eq_0_iff in H as [H _].
    rewrite Z.shiftl_1_l in H. pose proof (Z.pow_pos_nonneg 2 (Z.of_nat j)). lia.
  - rewrite Z.lor_0_l, Z.add_0_l. apply IH.
Qed.

Lemma testbit_63 : forall n, 0 <= n -> Z.testbit 63 n = (n <? 6).
Proof.
  intros n Hn. change 63 with (Z.ones 6). rewrite Z.testbit_ones by lia.
  destruct (Z.leb_spec 0 n); [reflexivity | lia].
Qed.

(** The encoder's sector views, as the decoder finds them. *)
Lemma enc_views : forall V B j, length B = (6 * 1024)%nat -> bytes_ok B = true -> (j < 6)%nat ->
  raw_sector_body (flat_map htons (enc_words V B)) j = slot j B /\
  sector_ok (flat_map htons (enc_words V B)) j = Z.testbit V (Z.of_nat j).
Proof.
  intros V B j HL HB Hj. rewrite enc_words_raw by assumption.
  set (g := fun j => htons (enc_csum V j (ntohs_words (slot j B))) ++ slot j B).
  assert (Hg : forall i, (i < 6)%nat -> length (g i) = 1026%nat)
    by (intros i Hi; unfold g; rewrite length_app, htons_length, length_slot by assumption;
        reflexivity).
  destruct (chunk_views g j Hg Hj) as [Ec Eb].
  assert (Hb : raw_sector_body (flat_map g (seq 0 6)) j = slot j B)
    by (rewrite Eb; unfold g; cbn [htons app skipn]; apply firstn_all2;
        rewrite length_slot by assumption; lia).
  split; [exact Hb|].
  unfold sector_ok. rewrite Hb, Ec. unfold g. cbn [htons app nth].
  rewrite ntohs_htons by apply enc_csum_range. apply enc_csum_ok.
Qed.

Lemma enc_ok_mask : forall V B, length B = (6 * 1024)%nat -> bytes_ok B = true ->
  ok_mask (flat_map htons (enc_words V B)) 0 6 = Z.land V 63.
Proof.
  intros V B HL HB. apply Z.bits_inj'. intros n Hn.
  rewrite testbit_ok_mask, Z.land_spec, testbit_63 by exact Hn.
  change (Z.of_nat 0) with 0. change (Z.of_nat (0 + 6)) with 6.
  destruct (Z.ltb_spec n 6).
  - rewrite (proj2 (enc_views V B (Z.to_nat n) HL HB ltac:(lia))), Z2Nat.id by lia.
    replace (0 <=? n) with true by (symmetry; apply Z.leb_le; lia).
    cbn [andb]. rewrite andb_true_r. reflexivity.
  - rewrite !andb_false_r. reflexivity.
Qed.

(** The sector checks of one attempt over a clean rendering. *)
Lemma after_checks_enc : forall idx V B st,
  length B = (6 * 1024)%nat -> bytes_ok B = true -> length (block st) = (6 * 1024)%nat ->
  let st' := after_checks idx (flat_map htons (enc_words V B)) st in
  length (block st') = (6 * 1024)%nat /\
  valid_blocks st' = Z.lor (valid_blocks st) (Z.land V 63) /\
  (forall k, (k < 6)%nat ->
     slot k (block st') = if Z.testbit V (Z.of_nat k) then slot k B else slot k (block st)) /\
  th st' = if Z.land V 63 =? 0 then th st else set_data_bitoff (th st) idx.
Proof.
  intros idx V B st HL HB Hst. cbv zeta. unfold after_checks.
  set (raw := flat_map htons (enc_words V B)).
  assert (Hbody : forall k, (k < 6)%nat -> length (raw_sector_body raw k) = 1024%nat)
    by (intros k Hk; unfold raw; rewrite (proj1 (enc_views V B k HL HB Hk));
        apply length_slot; assumption).
  pose proof (check_sectors_spec 6 0 raw (block st) (valid_blocks st) 0 Hst ltac:(lia) Hbody)
    as Hc.
  destruct (check_sectors 0 6 raw (block st) (valid_blocks st) 0) as [[blk' valid'] nr'].
  destruct Hc as [H1 [H2 [H3 H4]]]. cbn [block valid_blocks th].
  unfold raw in H2, H3. rewrite enc_ok_mask in H2 by assumption.
  repeat split.
  - exact H1.
  - exact H2.
  - intros k Hk. rewrite H4 by exact Hk. unfold raw.
    destruct (enc_views V B k HL HB Hk) as [Eb Eo]. rewrite Eb, Eo.
    replace ((0 <=? k)%nat && (k <? 0 + 6)%nat) with true
      by (symmetry; apply andb_true_iff; split; [apply Nat.leb_le | apply Nat.ltb_lt]; lia).
    reflexivity.
  - rewrite H3, Z.add_0_l, ok_count_zero, enc_ok_mask by assumption. reflexivity.
Qed.

Lemma length_sentinel : length sentinel = (6 * 1024)%nat.
Proof. reflexivity. Qed.

(** Re-reading the encoder's track from its start: the decoder returns the
    data of the sectors whose bit is set, the sentinel elsewhere. *)
Lemma roundtrip_core : forall tr t t' B io0,
  length B = (6 * 1024)%nat -> bytes_ok B = true ->
  let V := track_valid_sector_map t in
  let '(res, t2, s2) :=
    lemmings_write_mfm tr t' (reread (lemmings_read_mfm tr t B) io0) in
  rest s2 = [] /\
  match res with
  | None => Z.land V 63 = 0
  | Some blk =>
      Z.land V 63 <> 0 /\ length blk = (6 * 1024)%nat /\
      (forall k, (k < 6)%nat ->
         slot k blk = if Z.testbit V (Z.of_nat k) then slot k B else slot k sentinel) /\
      track_valid_sector_map t2 = Z.land V 63 /\
      data_bitoff t2 = (io0 + 1) mod 2 ^ 32 /\
      bytes_per_sector t2 = 1024 /\ nr_sectors t2 = 6 /\ len t2 = 6144
  end.
Proof.
  intros tr t t' B io0 HL HB. cbv zeta.
  set (V := track_valid_sector_map t). unfold reread.
  rewrite read_mfm_calls, render_header. fold V.
  set (R := tbuf_render false (flat_map word_calls (enc_words V B))).
  unfold lemmings_write_mfm.
  replace (loop_fuel _) with (17 + (32 + length R))%nat
    by (unfold loop_fuel; cbn [rest]; rewrite !length_app; reflexivity).
  destruct (loop_rendered (enc_words V B) io0 (init_dstate t') (32 + length R)
              (enc_words_length V B HL) (enc_words_range V B HB) eq_refl) as [s' [Hr E]].
  fold R in E. rewrite E.
  pose proof (after_checks_enc ((io0 + 1) mod 2 ^ 32) V B (init_dstate t') HL HB length_sentinel)
    as Ha. cbv zeta in Ha.
  destruct (after_checks ((io0 + 1) mod 2 ^ 32) (flat_map htons (enc_words V B)) (init_dstate t'))
    as [blk v th2].
  cbn [block valid_blocks th init_dstate] in Ha |- *.
  destruct Ha as [H1 [H2 [H3 H4]]]. rewrite Z.lor_0_l in H2. subst v.
  destruct (Z.eqb_spec (Z.land V 63) 0) as [E0|E0]; cbv iota beta.
  - split; [exact Hr | exact E0].
  - cbn [data_bitoff bytes_per_sector nr_sectors len write_valid_sector_map
         track_valid_sector_map valid_sector_map].
    rewrite H4. repeat split; try assumption; reflexivity.
Qed.

(** * Runs as replays of their events *)

Lemma read_raw_dat_some_len : forall n s raw s',
  read_raw_dat n s = (Some raw, s') -> length raw = (2 * n)%nat.
Proof.
  induction n as [|n IH]; intros s raw s' H.
  - cbn in H. injection H as <- _. reflexivity.
  - cbn [read_raw_dat] in H. destruct (stream_next_bits s 32) as [r s1].
    destruct (r =? -1); [discriminate|].
    destruct (read_raw_dat n s1) as [[raw1|] s2] eqn:E; cbn [option_map] in H; [|discriminate].
    injection H as H1 _. subst raw. cbn [length]. rewrite (IH _ _ _ E). lia.
Qed.

Lemma sync_attempt_cases : forall idx s1 st,
  let o := sync_attempt idx s1 st in
  (it_log o = [] /\ it_st o = st) \/
  (exists raw, length raw = (2 * 3078)%nat /\
     it_log o = [EvAttempt idx raw] /\ it_st o = after_checks idx raw st /\ it_done o = false).
Proof.
  intros idx s1 st. cbv zeta. unfold sync_attempt.
  destruct (stream_next_bits s1 32) as [r s2].
  destruct (r =? -1); [left; split; reflexivity|].
  destruct (negb (word s2 =? 0x552aaaaa)); [left; split; reflexivity|].
  destruct (read_raw_dat 3078 s2) as [[raw|] s3] eqn:E; [|left; split; reflexivity].
  right. exists raw. split; [apply (read_raw_dat_some_len _ _ _ _ E)|].
  unfold after_checks. destruct (check_sectors 0 6 raw (block st) (valid_blocks st) 0) as [[? ?] ?].
  repeat split.
Qed.

Lemma iter_replay : forall s st,
  let o := write_mfm_iter s st in
  it_st o = fold_left apply_event (it_log o) st /\ Forall event_wf (it_log o).
Proof.
  intros s st. cbv zeta. unfold write_mfm_iter.
  destruct (stream_next_bit s) as [b s1].
  destruct (b =? -1); [split; [reflexivity | constructor]|].
  destruct (valid_blocks st =? 63); [split; [reflexivity | constructor]|].
  destruct (negb (word s1 mod 2 ^ 16 =? 0x4489)); [split; [reflexivity | repeat constructor]|].
  destruct (sync_attempt_cases ((index_offset s1 - 15) mod 2 ^ 32) s1 st)
    as [[E1 E2] | [raw [Hr [E1 [E2 _]]]]];
    cbn [it_st it_log]; rewrite E1, E2; (split; [reflexivity | repeat constructor]).
  exact Hr.
Qed.

(** The decoder's state at the end of a run is the replay of the run's
    events. *)
Lemma loop_replay : forall fuel s st,
  snd (write_mfm_loop fuel s st) = fold_left apply_event (write_mfm_log fuel s st) st /\
  Forall event_wf (write_mfm_log fuel s st).
Proof.
  induction fuel as [|f IH]; intros s st; [split; [reflexivity | constructor]|].
  cbn [write_mfm_loop write_mfm_log].
  destruct (iter_replay s st) as [E W].
  destruct (it_done (write_mfm_iter s st)); [split; assumption|].
  destruct (IH (it_s (write_mfm_iter s st)) (it_st (write_mfm_iter s st))) as [E' W'].
  split.
  - rewrite E', fold_left_app, <- E. reflexivity.
  - apply Forall_app. split; assumption.
Qed.

(** Fuel: a pass that does not end the loop reads at least one bit, so the
    loop ends with the stream exhausted or all six sectors valid. *)
Lemma iter_progress : forall s st,
  let o := write_mfm_iter s st in
  if it_done o then rest (it_s o) = [] \/ valid_blocks (it_st o) = 63
  else (length (rest (it_s o)) < length (rest s))%nat.
Proof.
  intros s st. cbv zeta. unfold write_mfm_iter, stream_next_bit.
  destruct (rest s) as [|b r] eqn:Hs; [left; exact Hs|].
  rewrite b2z_neq_m1. destruct (valid_blocks st =? 63) eqn:Hv.
  - right. apply Z.eqb_eq, Hv.
  - set (s1 := mk_stream ((2 * word s + Z.b2z b) mod 2 ^ 32) (index_offset s + 1) r).
    destruct (negb (word s1 mod 2 ^ 16 =? 0x4489)); [cbn; lia|].
    cbn [it_done it_s it_st]. unfold sync_attempt.
    pose proof (next_bits_len 32 s1) as [L1 L2].
    pose proof (next_bits_fail 32 s1) as F1.
    destruct (stream_next_bits s1 32) as [x s2] eqn:E2. cbn [fst snd] in L1, L2, F1.
    destruct (Z.eqb_spec x (-1)) as [->|Hx]; [left; apply F1; reflexivity|].
    destruct (negb (word s2 =? 0x552aaaaa)); [cbn in L1 |- *; lia|].
    pose proof (read_raw_dat_len 3078 s2) as L3.
    pose proof (read_raw_dat_fail 3078 s2) as F3.
    destruct (read_raw_dat 3078 s2) as [[raw|] s3] eqn:E3; cbn [fst snd] in L3, F3.
    + unfold after_checks. destruct (check_sectors 0 6 raw (block st) (valid_blocks st) 0)
        as [[? ?] ?]. cbn in L1 |- *. lia.
    + left. apply F3. reflexivity.
Qed.

Lemma loop_exit : forall fuel s st, (length (rest s) < fuel)%nat ->
  let '(s2, st2) := write_mfm_loop fuel s st in rest s2 = [] \/ valid_blocks st2 = 63.
Proof.
  induction fuel as [|f IH]; intros s st H; [lia|].
  cbn [write_mfm_loop]. pose proof (iter_progress s st) as P. cbv zeta in P.
  destruct (it_done (write_mfm_iter s st)); [exact P|].
  apply IH. lia.
Qed.

Lemma length_raw_sector_body : forall raw k,
  length raw = (2 * 3078)%nat -> (k < 6)%nat -> length (raw_sector_body raw k) = 1024%nat.
Proof.
  intros raw k Hr Hk. unfold raw_sector_body. rewrite length_firstn, length_skipn. lia.
Qed.

Lemma after_checks_spec : forall idx raw st,
  length raw = (2 * 3078)%nat -> length (block st) = (6 * 1024)%nat ->
  let st' := after_checks idx raw st in
  length (block st') = (6 * 1024)%nat /\
  valid_blocks st' = Z.lor (valid_blocks st) (ok_mask raw 0 6) /\
  (forall k, (k < 6)%nat ->
     slot k (block st') = if sector_ok raw k then raw_sector_body raw k else slot k (block st)) /\
  th st' = if ok_count raw 0 6 =? 0 then th st else set_data_bitoff (th st) idx.
Proof.
  intros idx raw st Hr Hb. cbv zeta. unfold after_checks.
  pose proof (check_sectors_spec 6 0 raw (block st) (valid_blocks st) 0 Hb ltac:(lia)
                (fun k Hk => length_raw_sector_body raw k Hr Hk)) as Hc.
  destruct (check_sectors 0 6 raw (block st) (valid_blocks st) 0) as [[blk' valid'] nr'].
  destruct Hc as [H1 [H2 [H3 H4]]]. cbn [block valid_blocks th].
  repeat split; try assumption.
  - intros k Hk. rewrite H4 by exact Hk.
    replace ((0 <=? k)%nat && (k <? 0 + 6)%nat) with true
      by (symmetry; apply andb_true_iff; split; [apply Nat.leb_le | apply Nat.ltb_lt]; lia).
    reflexivity.
  - rewrite H3, Z.add_0_l. reflexivity.
Qed.

Lemma replay_spec : forall log st,
  Forall event_wf log -> length (block st) = (6 * 1024)%nat ->
  let st' := fold_left apply_event log st in
  length (block st') = (6 * 1024)%nat /\
  valid_blocks st' = fold_left ev_mask log (valid_blocks st) /\
  (forall k, (k < 6)%nat -> slot k (block st') = fold_left (ev_body k) log (slot k (block st))) /\
  data_bitoff (th st') = fold_left ev_off log (data_bitoff (th st)).
Proof.
  induction log as [|e log IH]; intros st W Hb; cbv zeta.
  - repeat split; auto.
  - inversion W as [|? ? We Wl]; subst. cbn [fold_left].
    destruct e as [io|idx raw]; cbn [apply_event ev_mask ev_body ev_off].
    + apply (IH st Wl Hb).
    + cbn [event_wf] in We.
      destruct (after_checks_spec idx raw st We Hb) as [A1 [A2 [A3 A4]]].
      destruct (IH (after_checks idx raw st) Wl A1) as [B1 [B2 [B3 B4]]].
      repeat split.
      * exact B1.
      * rewrite B2, A2. reflexivity.
      * intros k Hk. rewrite B3, A3 by exact Hk. reflexivity.
      * rewrite B4, A4. destruct (ok_count raw 0 6 =? 0); reflexivity.
Qed.

(** The three folds over the events of a whole run. *)
Lemma run_spec : forall fuel s st, length (block st) = (6 * 1024)%nat ->
  let log := write_mfm_log fuel s st in
  let st' := snd (write_mfm_loop fuel s st) in
  length (block st') = (6 * 1024)%nat /\
  valid_blocks st' = fold_left ev_mask log (valid_blocks st) /\
  (forall k, (k < 6)%nat -> slot k (block st') = fold_left (ev_body k) log (slot k (block st))) /\
  data_bitoff (th st') = fold_left ev_off log (data_bitoff (th st)).
Proof.
  intros fuel s st Hb. cbv zeta. destruct (loop_replay fuel s st) as [E W].
  rewrite E. apply (replay_spec _ _ W Hb).
Qed.

Lemma ev_mask_mono : forall log v k, Z.testbit v k = true ->
  Z.testbit (fold_left ev_mask log v) k = true.
Proof.
  induction log as [|e log IH]; intros v k H; [exact H|].
  cbn [fold_left]. apply IH. destruct e; cbn [ev_mask]; [exact H|].
  rewrite Z.lor_spec, H. reflexivity.
Qed.

(** The offset of the last event that changes it wins. *)
Lemma ev_off_last : forall l1 idx raw l2 o,
  ok_count raw 0 6 <> 0 ->
  (forall i r, In (EvAttempt i r) l2 -> ok_count r 0 6 = 0) ->
  fold_left ev_off (l1 ++ EvAttempt idx raw :: l2) o = idx.
Proof.
  intros l1 idx raw l2 o Hok Hl2. rewrite fold_left_app. cbn [fold_left ev_off].
  replace (ok_count raw 0 6 =? 0) with false by (symmetry; apply Z.eqb_neq, Hok).
  generalize idx. clear - Hl2. induction l2 as [|e l2 IH]; intros o'; [reflexivity|].
  cbn [fold_left]. destruct e as [io|i r]; cbn [ev_off].
  - apply IH. intros i r H. apply (Hl2 i r). right. exact H.
  - rewrite (Hl2 i r) by (left; reflexivity). cbn. apply IH.
    intros i' r' H. apply (Hl2 i' r'). right. exact H.
Qed.

Lemma ev_body_last : forall k l1 idx raw l2 b,
  sector_ok raw k = true ->
  (forall i r, In (EvAttempt i r) l2 -> sector_ok r k = false) ->
  fold_left (ev_body k) (l1 ++ EvAttempt idx raw :: l2) b = raw_sector_body raw k.
Proof.
  intros k l1 idx raw l2 b Hok Hl2. rewrite fold_left_app. cbn [fold_left ev_body].
  rewrite Hok. generalize (raw_sector_body raw k). clear - Hl2.
  induction l2 as [|e l2 IH]; intros b'; [reflexivity|].
  cbn [fold_left]. destruct e as [io|i r]; cbn [ev_body].
  - apply IH. intros i r H. apply (Hl2 i r). right. exact H.
  - rewrite (Hl2 i r) by (left; reflexivity). apply IH.
    intros i' r' H. apply (Hl2 i' r'). right. exact H.
Qed.

(** * The word view of [raw_dat] *)

Lemma ntohs_words_skipn : forall m l, ntohs_words (skipn (2 * m) l) = skipn m (ntohs_words l).
Proof.
  induction m as [|m IH]; intros l; [reflexivity|].
  replace (2 * S m)%nat with (S (S (2 * m))) by lia.
  destruct l as [|a [|b l]]; [reflexivity | destruct m; reflexivity|].
  cbn [skipn ntohs_words]. apply IH.
Qed.

Lemma ntohs_words_firstn : forall m l, ntohs_words (firstn (2 * m) l) = firstn m (ntohs_words l).
Proof.
  induction m as [|m IH]; intros l; [reflexivity|].
  replace (2 * S m)%nat with (S (S (2 * m))) by lia.
  destruct l as [|a [|b l]]; [reflexivity | reflexivity|].
  cbn [firstn ntohs_words].
  f_equal. apply IH.
Qed.

(** Group [j] of the 6 x 513 words: its word 0 is the stored checksum and
    its words 1..512 are the body read through [ntohs]. *)
Lemma group_views : forall raw j, length raw = (2 * 3078)%nat -> (j < 6)%nat ->
  let g := firstn 513 (skipn (j * 513) (ntohs_words raw)) in
  nth 0 g 0 = raw_sector_csum raw j /\
  skipn 1 g = ntohs_words (raw_sector_body raw j).
Proof.
  intros raw j Hr Hj. cbv zeta.
  rewrite <- ntohs_words_skipn, <- ntohs_words_firstn.
  replace (2 * (j * 513))%nat with (j * 1026)%nat by lia.
  change (2 * 513)%nat with 1026%nat. split.
  - unfold raw_sector_csum.
    assert (Hs : exists a b l, skipn (j * 1026) raw = a :: b :: l).
    { destruct (skipn (j * 1026) raw) as [|a [|b l]] eqn:E;
        [| |exists a, b, l; reflexivity];
        apply (f_equal (@length Z)) in E; rewrite length_skipn in E; cbn in E; lia. }
    destruct Hs as [a [b [l Hs]]].
    rewrite <- (Nat.add_0_r (j * 1026)) at 2. rewrite <- !nth_skipn, Hs. reflexivity.
  - unfold raw_sector_body. rewrite <- ntohs_words_skipn. change (2 * 1)%nat with 2%nat.
    rewrite skipn_firstn_comm, skipn_skipn. change (1026 - 2)%nat with 1024%nat.
    rewrite (Nat.add_comm 2 (j * 1026)). reflexivity.
Qed.

Lemma testbit_ok_mask_6 : forall raw k, (k < 6)%nat ->
  Z.testbit (ok_mask raw 0 6) (Z.of_nat k) = sector_ok raw k.
Proof.
  intros raw k Hk. rewrite testbit_ok_mask by lia. rewrite Nat2Z.id.
  replace (Z.of_nat 0 <=? Z.of_nat k) with true by (symmetry; apply Z.leb_le; lia).
  replace (Z.of_nat k <? Z.of_nat (0 + 6)) with true by (symmetry; apply Z.ltb_lt; lia).
  reflexivity.
Qed.

Lemma testbit_ok_mask_high : forall raw n, 6 <= n ->
  Z.testbit (ok_mask raw 0 6) n = false.
Proof.
  intros raw n Hn. rewrite testbit_ok_mask by lia.
  replace (n <? Z.of_nat (0 + 6)) with false by (symmetry; apply Z.ltb_ge; lia).
  rewrite andb_false_r. reflexivity.
Qed.

(** * Demodulation, bit by bit *)

Lemma demod_bits : forall w i, (i < 8)%nat ->
  Z.testbit (demod w) (Z.of_nat (2 * i + 1)) = Z.testbit w (Z.of_nat (16 + 2 * i)) /\
  Z.testbit (demod w) (Z.of_nat (2 * i)) = Z.testbit w (Z.of_nat (2 * i)).
Proof.
  intros w i Hi. unfold demod.
  assert (H5 : Z.testbit 0x5555 (Z.of_nat (2 * i)) = true)
    by (do 8 (destruct i as [|i]; [reflexivity|]); lia).
  assert (H5' : Z.testbit 0x5555 (Z.of_nat (2 * i + 1)) = false)
    by (do 8 (destruct i as [|i]; [reflexivity|]); lia).
  split.
  - rewrite Z.lor_spec, Z.land_spec, H5', andb_false_r, orb_false_r.
    replace (Z.of_nat (2 * i + 1)) with (Z.of_nat (2 * i) + 1) by lia.
    rewrite Z.shiftl_spec_alt by lia. rewrite Z.land_spec, H5, andb_true_r.
    rewrite Z.shiftr_spec by lia. f_equal. lia.
  - rewrite Z.lor_spec, Z.land_spec, H5, andb_true_r.
    rewrite Z.shiftl_spec by lia.
    replace (Z.testbit (Z.land (Z.shiftr w 16) 0x5555) (Z.of_nat (2 * i) - 1)) with false.
    + rewrite orb_false_l, Z.mod_pow2_bits_low by lia. reflexivity.
    + symmetry. destruct i as [|i]; [apply Z.testbit_neg_r; lia|].
      rewrite Z.land_spec. replace (Z.of_nat (2 * S i) - 1) with (Z.of_nat (2 * i + 1)) by lia.
      replace (Z.testbit 0x5555 (Z.of_nat (2 * i + 1))) with false
        by (symmetry; do 7 (destruct i as [|i]; [reflexivity|]); lia).
      apply andb_false_r.
Qed.

Lemma demod_high : forall w n, 16 <= n -> Z.testbit (demod w) n = false.
Proof.
  intros w n Hn. unfold demod. rewrite Z.lor_spec, !Z.land_spec.
  rewrite Z.shiftl_spec by lia. rewrite Z.land_spec.
  rewrite !testbit_5555_high by lia. rewrite !andb_false_r. reflexivity.
Qed.

(** * Facts without length side conditions *)

Lemma check_sectors_valid : forall n j raw blk valid nr,
  snd (fst (check_sectors j n raw blk valid nr)) = Z.lor valid (ok_mask raw j n) /\
  snd (check_sectors j n raw blk valid nr) = nr + ok_count raw j n.
Proof.
  induction n as [|n IH]; intros j raw blk valid nr.
  - cbn. rewrite Z.lor_0_r, Z.add_0_r. split; reflexivity.
  - cbn [check_sectors ok_mask ok_count]. destruct (sector_ok raw j).
    + destruct (IH (S j) raw (memcpy blk (j * 1024) (raw_sector_body raw j))
                  (Z.lor valid (Z.shiftl 1 (Z.of_nat j))) (nr + 1)) as [H1 H2].
      rewrite H1, H2, Z.lor_assoc. split; [reflexivity | lia].
    + destruct (IH (S j) raw blk valid nr) as [H1 H2].
      rewrite H1, H2, Z.lor_0_l. split; reflexivity.
Qed.

Lemma after_checks_valid : forall idx raw st,
  valid_blocks (after_checks idx raw st) = Z.lor (valid_blocks st) (ok_mask raw 0 6) /\
  data_bitoff (th (after_checks idx raw st)) =
    (if ok_count raw 0 6 =? 0 then data_bitoff (th st) else idx).
Proof.
  intros idx raw st. unfold after_checks.
  destruct (check_sectors_valid 6 0 raw (block st) (valid_blocks st) 0) as [H1 H2].
  destruct (check_sectors 0 6 raw (block st) (valid_blocks st) 0) as [[blk' valid'] nr'].
  cbn [fst snd] in H1, H2. subst. cbn [valid_blocks th]. rewrite Z.add_0_l.
  split; [reflexivity|]. destruct (ok_count raw 0 6 =? 0); reflexivity.
Qed.

Lemma apply_event_valid : forall st e,
  valid_blocks (apply_event st e) = ev_mask (valid_blocks st) e.
Proof.
  intros st [io|idx raw]; [reflexivity|]. apply after_checks_valid.
Qed.

Lemma fold_apply_valid : forall log st,
  valid_blocks (fold_left apply_event log st) = fold_left ev_mask log (valid_blocks st).
Proof.
  induction log as [|e log IH]; intros st; [reflexivity|].
  cbn [fold_left]. rewrite IH, apply_event_valid. reflexivity.
Qed.

(** A pass of the loop never clears a bit of [valid_blocks]. *)
Lemma iter_valid_mono : forall s st k, Z.testbit (valid_blocks st) k = true ->
  Z.testbit (valid_blocks (it_st (write_mfm_iter s st))) k = true.
Proof.
  intros s st k H. destruct (iter_replay s st) as [E _]. rewrite E, fold_apply_valid.
  apply ev_mask_mono, H.
Qed.

(** The header [lemmings_write_mfm] returns keeps the loop's offset. *)
Lemma write_mfm_result : forall tr t s,
  let '(s2, st2) := write_mfm_loop (loop_fuel s) s (init_dstate t) in
  lemmings_write_mfm tr t s =
  if valid_blocks st2 =? 0 then (None, th st2, s2)
  else (Some (block st2),
        mk_th (data_bitoff (th st2)) 1024 6 6144 (total_bits (th st2)) (valid_blocks st2), s2).
Proof.
  intros tr t s. unfold lemmings_write_mfm.
  destruct (write_mfm_loop (loop_fuel s) s (init_dstate t)) as [s2 st2].
  destruct (valid_blocks st2 =? 0); reflexivity.
Qed.

(** The 32-bit slices demodulated after a confirmed second mark word. *)
Lemma sync_slices : forall idx s1 st l r,
  rest s1 = l ++ r -> length l = (32 + 32 * 3078)%nat ->
  bits_val (firstn 32 l) = 0x552aaaaa ->
  let raw := flat_map (fun j => htons (demod (bits_val (firstn 32 (skipn (32 + 32 * j) l)))))
               (seq 0 3078) in
  exists s', rest s' = r /\
    sync_attempt idx s1 st = mk_out false s' (after_checks idx raw st) [EvAttempt idx raw].
Proof.
  intros idx s1 st l r Hs Hl Hm. cbv zeta.
  assert (Hs' : rest s1 = firstn 32 l ++ (skipn 32 l ++ r))
    by (rewrite Hs, app_assoc, firstn_skipn; reflexivity).
  pose proof (next_bits_app _ _ _ Hs') as Hn.
  rewrite length_firstn, Nat.min_l in Hn by lia.
  destruct (read_raw_dat_slices 3078 (skipn 32 l) r
              (mk_stream (fold_left shift_in (firstn 32 l) (word s1))
                 (index_offset s1 + Z.of_nat 32) (skipn 32 l ++ r)) eq_refl)
    as [s' [E Hr]]; [rewrite length_skipn; lia|].
  exists s'. split; [exact Hr|].
  apply (sync_attempt_ok _ _ _ _ _ _ Hn).
  - cbn [word]. rewrite shift_in_32 by (rewrite length_firstn; lia). exact Hm.
  - rewrite E. f_equal. f_equal. apply flat_map_ext. intros j.
    rewrite skipn_skipn, Nat.add_comm. reflexivity.
Qed.

(** * Statements about the handler *)

Lemma land_63_small : forall V, 0 <= V < 64 -> Z.land V 63 = V.
Proof.
  intros V HV. change 63 with (Z.ones 6). rewrite Z.land_ones by lia.
  apply Z.mod_small. change (2 ^ 6) with 64. exact HV.
Qed.

Lemma enc_calls_chunk : forall V B i, length B = (6 * 1024)%nat -> (i < 6)%nat ->
  skipn (i * 1026) (flat_map word_calls (enc_words V B)) =
  flat_map word_calls (sector_words V i (slot i B))
  ++ flat_map (fun j => flat_map word_calls (sector_words V j (slot j B))) (seq (S i) (5 - i)).
Proof.
  intros V B i HL Hi. unfold enc_words. rewrite flat_map_flat_map.
  rewrite (skipn_flat_map_seq _ _ 1026 6 i 0).
  - cbn [Nat.add]. replace (6 - i)%nat with (S (5 - i)) by lia. reflexivity.
  - intros j Hj. rewrite (length_flat_map_const _ _ _ 2).
    + unfold sector_words. cbn [length].
      rewrite (length_ntohs_words 512); [reflexivity|]. rewrite length_slot by (auto; lia).
      reflexivity.
    + intros x _. reflexivity.
  - lia.
Qed.

(** C1 (amended): for every 6 x 1024 byte buffer [B] and every 6-bit mask
    [V] that is not zero, encoding then re-reading and decoding gives back
    [B] at the sectors of [V], the sentinel elsewhere, and the map [V]; for
    [V = 0] the decoder returns "no data" ([NULL]). *)
Theorem C1_roundtrip_nonzero_mask : forall tr t t' B io0,
  length B = (6 * 1024)%nat -> bytes_ok B = true ->
  0 <= track_valid_sector_map t < 64 ->
  let V := track_valid_sector_map t in
  let '(res, t2, _) :=
    lemmings_write_mfm tr t' (reread (lemmings_read_mfm tr t B) io0) in
  match res with
  | None => V = 0
  | Some blk =>
      V <> 0 /\ track_valid_sector_map t2 = V /\
      (forall k, (k < 6)%nat ->
         slot k blk = if Z.testbit V (Z.of_nat k) then slot k B else slot k sentinel)
  end.
Proof.
  intros tr t t' B io0 HL HB HV V.
  pose proof (roundtrip_core tr t t' B io0 HL HB) as H. cbv zeta in H.
  fold V in H |- *. rewrite (land_63_small V HV) in H.
  destruct (lemmings_write_mfm tr t' (reread (lemmings_read_mfm tr t B) io0))
    as [[res t2] s2].
  destruct H as [_ H]. destruct res as [blk|]; [|exact H].
  destruct H as (Hne & _ & Hslots & Hmap & _). auto.
Qed.

Lemma C1_roundtrip_nonzero_mask_witness :
  let '(res, t2, _) :=
    lemmings_write_mfm 0 th0 (reread (lemmings_read_mfm 0 (th_map 45) B0) 0) in
  match res with
  | None => 45 = 0
  | Some blk =>
      45 <> 0 /\ track_valid_sector_map t2 = 45 /\
      (forall k, (k < 6)%nat ->
         slot k blk = if Z.testbit 45 (Z.of_nat k) then slot k B0 else slot k sentinel)
  end.
Proof.
  refine (C1_roundtrip_nonzero_mask 0 (th_map 45) th0 B0 0 _ _ _);
    [reflexivity | reflexivity | cbn [track_valid_sector_map valid_sector_map th_map]; lia].
Defined.

(** Re-reading the encoding of a block with the empty map. *)
Lemma roundtrip_empty_map : forall tr t t' B io0,
  length B = (6 * 1024)%nat -> bytes_ok B = true -> track_valid_sector_map t = 0 ->
  fst (fst (lemmings_write_mfm tr t' (reread (lemmings_read_mfm tr t B) io0))) = None.
Proof.
  intros tr t t' B io0 HL HB HV.
  pose proof (roundtrip_core tr t t' B io0 HL HB) as H. cbv zeta in H.
  rewrite HV in H.
  destruct (lemmings_write_mfm tr t' (reread (lemmings_read_mfm tr t B) io0))
    as [[res t2] s2].
  destruct H as [_ H]. destruct res as [blk|]; [|reflexivity].
  destruct H as [Hne _]. exfalso. apply Hne. reflexivity.
Qed.

(** C1 counterexample: with the mask [V = 0] the re-read track decodes to
    "no data", not to a block with the map [0]. *)
Lemma C1_counterexample :
  fst (fst (lemmings_write_mfm 0 th0 (reread (lemmings_read_mfm 0 (th_map 0) B0) 0)))
  = None.
Proof. apply roundtrip_empty_map; reflexivity. Qed.

(** C2: for a sector [i] whose bit is unset, the encoder emits as its
    checksum word (calls [2 + 1026 i] and [3 + 1026 i], even then odd) the
    16-bit complement of the wrap-around sum of its 512 words; that value
    differs from the sum for every body, and a re-read of the rendered
    track leaves the sector invalid with the sentinel in its slot. *)
Theorem C2_invalid_sector_csum_inverted : forall tr t t' B io0 i,
  length B = (6 * 1024)%nat -> bytes_ok B = true -> (i < 6)%nat ->
  Z.testbit (track_valid_sector_map t) (Z.of_nat i) = false ->
  let ws := ntohs_words (slot i B) in
  let c := Z.land (Z.lnot (sum16 ws)) 0xffff in
  firstn 2 (skipn (2 + i * 1026) (tb_calls (lemmings_read_mfm tr t B))) =
    [tbuf_bits TBUFDAT_even 16 c; tbuf_bits TBUFDAT_odd 16 c] /\
  c <> sum16 ws /\
  (forall body : list Z, Z.land (Z.lnot (sum16 body)) 0xffff <> sum16 body) /\
  let '(res, t2, _) :=
    lemmings_write_mfm tr t' (reread (lemmings_read_mfm tr t B) io0) in
  match res with
  | None => True
  | Some blk =>
      Z.testbit (track_valid_sector_map t2) (Z.of_nat i) = false /\
      slot i blk = slot i sentinel
  end.
Proof.
  intros tr t t' B io0 i HL HB Hi Hbit ws c.
  assert (Hneq : forall body : list Z, Z.land (Z.lnot (sum16 body)) 0xffff <> sum16 body)
    by (intros body; apply lnot_csum_neq, sum16_range).
  split; [|split; [apply Hneq|split; [exact Hneq|]]].
  - rewrite read_mfm_calls. cbn [app]. change (2 + i * 1026)%nat with (S (S (i * 1026))).
    cbn [skipn]. rewrite (enc_calls_chunk _ _ _ HL Hi).
    unfold sector_words, enc_csum. rewrite mask_bit, Hbit. cbn [negb flat_map].
    reflexivity.
  - pose proof (roundtrip_core tr t t' B io0 HL HB) as H. cbv zeta in H.
    destruct (lemmings_write_mfm tr t' (reread (lemmings_read_mfm tr t B) io0))
      as [[res t2] s2].
    destruct H as [_ H]. destruct res as [blk|]; [|exact I].
    destruct H as (_ & _ & Hslots & Hmap & _). rewrite Hmap, (Hslots i Hi), Hbit.
    split; [|reflexivity]. rewrite Z.land_spec, Hbit. reflexivity.
Qed.

Lemma C2_invalid_sector_csum_inverted_witness :
  let ws := ntohs_words (slot 1 B0) in
  let c := Z.land (Z.lnot (sum16 ws)) 0xffff in
  firstn 2 (skipn (2 + 1 * 1026) (tb_calls (lemmings_read_mfm 0 (th_map 45) B0))) =
    [tbuf_bits TBUFDAT_even 16 c; tbuf_bits TBUFDAT_odd 16 c] /\
  c <> sum16 ws /\
  (forall body : list Z, Z.land (Z.lnot (sum16 body)) 0xffff <> sum16 body) /\
  let '(res, t2, _) :=
    lemmings_write_mfm 0 th0 (reread (lemmings_read_mfm 0 (th_map 45) B0) 0) return Prop in
  match res with
  | None => True
  | Some blk =>
      Z.testbit (track_valid_sector_map t2) (Z.of_nat 1) = false /\
      slot 1 blk = slot 1 sentinel
  end.
Proof.
  refine (C2_invalid_sector_csum_inverted 0 (th_map 45) th0 B0 0 1 _ _ _ _);
    [reflexivity | reflexivity | lia | reflexivity].
Defined.

Lemma iter_failed_confirm : forall w io b l r st,
  (valid_blocks st =? 63) = false -> shift_in w b mod 2 ^ 16 = 0x4489 ->
  length l = 32%nat -> bits_val l <> 0x552aaaaa ->
  write_mfm_iter (mk_stream w io (b :: l ++ r)) st =
  mk_out false (mk_stream (bits_val l) (io + 1 + 32) r) st [EvWindow (io + 1)].
Proof.
  intros w io b l r st Hv Hm Hl Hne.
  rewrite iter_match by (exact Hv || (apply Z.eqb_eq; exact Hm)). cbv zeta.
  unfold sync_attempt.
  pose proof (next_bits_app l r (mk_stream (shift_in w b) (io + 1) (l ++ r)) eq_refl) as Hn.
  rewrite Hl in Hn. rewrite Hn. cbn [Z.eqb word]. rewrite shift_in_32 by exact Hl.
  destruct (Z.eqb_spec (bits_val l) 0x552aaaaa) as [E|E]; [contradiction|].
  cbn [negb it_done it_s it_st it_log index_offset]. reflexivity.
Qed.

(** C3 (amended): when the 16-bit window ending at bit [io + 1] is the
    mark but the 32 bits after it are not the second mark word, the pass
    ends with those 32 bits consumed: the next window the loop tests ends
    at bit [io + 34], so the 32 windows ending at [io + 2 .. io + 33] are
    never tested. *)
Theorem C3_failed_confirm_consumes_32_bits : forall w io b l r st,
  (valid_blocks st =? 63) = false -> shift_in w b mod 2 ^ 16 = 0x4489 ->
  length l = 32%nat -> bits_val l <> 0x552aaaaa ->
  write_mfm_iter (mk_stream w io (b :: l ++ r)) st =
  mk_out false (mk_stream (bits_val l) (io + 1 + 32) r) st [EvWindow (io + 1)] /\
  forall st' b' r',
    (valid_blocks st' =? 63) = false ->
    it_log (write_mfm_iter (mk_stream (bits_val l) (io + 1 + 32) (b' :: r')) st')
    <> [] /\
    hd (EvWindow 0)
      (it_log (write_mfm_iter (mk_stream (bits_val l) (io + 1 + 32) (b' :: r')) st'))
    = EvWindow (io + 34).
Proof.
  intros w io b l r st Hv Hm Hl Hne.
  split; [apply iter_failed_confirm; assumption|].
  intros st' b' r' Hv'.
  destruct (shift_in (bits_val l) b' mod 2 ^ 16 =? 0x4489) eqn:E.
  - rewrite iter_match by assumption. cbv zeta. cbn [it_log hd].
    split; [discriminate|]. f_equal. lia.
  - rewrite iter_skip by assumption. cbn [it_log hd].
    split; [discriminate|]. f_equal. lia.
Qed.

Lemma C3_failed_confirm_consumes_32_bits_witness :
  write_mfm_iter (mk_stream 0x2244 0 (true :: repeat false 32 ++ [])) (init_dstate th0) =
  mk_out false (mk_stream (bits_val (repeat false 32)) (0 + 1 + 32) [])
    (init_dstate th0) [EvWindow (0 + 1)] /\
  forall st' b' r',
    (valid_blocks st' =? 63) = false ->
    it_log (write_mfm_iter (mk_stream (bits_val (repeat false 32)) (0 + 1 + 32) (b' :: r')) st')
    <> [] /\
    hd (EvWindow 0)
      (it_log (write_mfm_iter (mk_stream (bits_val (repeat false 32)) (0 + 1 + 32) (b' :: r')) st'))
    = EvWindow (0 + 34).
Proof.
  apply C3_failed_confirm_consumes_32_bits;
    [reflexivity | reflexivity | reflexivity | vm_compute; lia].
Defined.

(** C3 counterexample: on [double_mark_stream] the first mark (bits 1-16)
    is followed by [0x4489552a], so the 32 bits after it are consumed; the
    windows ending at bits 17-48 are never tested, and the real mark at
    bits 17-32, followed by [0x552aaaaa], is never tried. *)
Lemma C3_counterexample :
  firstn 16 (skipn 16 (rest double_mark_stream)) = bits_msb 16 0x4489 /\
  bits_val (skipn 32 (rest double_mark_stream)) = 0x552aaaaa /\
  windows (write_mfm_log (loop_fuel double_mark_stream) double_mark_stream (init_dstate th0))
  = map Z.of_nat (seq 1 16 ++ seq 49 16) /\
  attempts (write_mfm_log (loop_fuel double_mark_stream) double_mark_stream (init_dstate th0))
  = [].
Proof. split; [|split; [|split]]; reflexivity. Qed.

Lemma length_bits_msb : forall n x, length (bits_msb n x) = n.
Proof. intros n x. unfold bits_msb. rewrite length_map, length_rev, length_seq. reflexivity. Qed.

Lemma reread_mark : forall tr t B io0,
  firstn 16 (rest (reread (lemmings_read_mfm tr t B) io0)) = bits_msb 16 0x4489.
Proof.
  intros tr t B io0. unfold reread. cbn [rest].
  rewrite read_mfm_calls, render_header, firstn_app, length_bits_msb, Nat.sub_diag.
  rewrite firstn_O, app_nil_r. apply firstn_all2. rewrite length_bits_msb. lia.
Qed.

Lemma after_checks_th : forall idx raw st,
  th (after_checks idx raw st) =
  if ok_count raw 0 6 =? 0 then th st else set_data_bitoff (th st) idx.
Proof.
  intros idx raw st. unfold after_checks.
  destruct (check_sectors_valid 6 0 raw (block st) (valid_blocks st) 0) as [_ H2].
  destruct (check_sectors 0 6 raw (block st) (valid_blocks st) 0) as [[blk' valid'] nr'].
  cbn [snd] in H2. subst. cbn [th]. rewrite Z.add_0_l. reflexivity.
Qed.

Lemma skipn_repeat_nat : forall (A : Type) (x : A) k n,
  skipn k (repeat x n) = repeat x (n - k).
Proof.
  intros A x k. induction k as [|k IH]; intros n; [rewrite Nat.sub_0_r; reflexivity|].
  destruct n as [|n]; [reflexivity|]. cbn [skipn repeat]. rewrite IH. reflexivity.
Qed.

Lemma firstn_repeat_nat : forall (A : Type) (x : A) k n,
  firstn k (repeat x n) = repeat x (Nat.min k n).
Proof.
  intros A x k. induction k as [|k IH]; intros n; [reflexivity|].
  destruct n as [|n]; [reflexivity|]. cbn [firstn repeat Nat.min]. rewrite IH. reflexivity.
Qed.

(** The words demodulated from all-zero cells. *)
Lemma demod_slices_zero :
  flat_map (fun j => htons (demod (bits_val (firstn 32 (skipn (32 * j) (repeat false (32 * 3078)))))))
    (seq 0 3078) = repeat 0 (2 * 3078).
Proof.
  assert (G : forall n k, flat_map (fun _ : nat => [0; 0]) (seq k n) = repeat 0 (2 * n)).
  { induction n as [|n IH]; intros k; [reflexivity|].
    cbn [seq flat_map app]. rewrite IH. replace (2 * S n)%nat with (S (S (2 * n))) by lia.
    reflexivity. }
  rewrite <- (G 3078%nat 0%nat). apply flat_map_ext_in.
  intros j Hj. apply in_seq in Hj.
  rewrite skipn_repeat_nat, firstn_repeat_nat.
  replace (Nat.min 32 (32 * 3078 - 32 * j)) with 32%nat by lia. reflexivity.
Qed.

(** C8 (amended): on a confirmed match (the 16-bit window ending at the bit
    that brings the counter to [io + 1] is the mark, the next 32 bits are
    the second mark word and the 3078 data words follow), the candidate
    offset is [(io + 1 - 15) mod 2^32], the counter after the mark
    backdated by 15 bits (the counter just after the mark's first bit); the
    pass runs the sector checks on the demodulated words and records that
    offset as [data_bitoff] exactly when a sector validates, and leaves
    the header as it was otherwise. *)
Theorem C8_candidate_offset_minus_15 : forall w io b d r st,
  (valid_blocks st =? 63) = false -> shift_in w b mod 2 ^ 16 = 0x4489 ->
  length d = (32 * 3078)%nat ->
  let idx := (io + 1 - 15) mod 2 ^ 32 in
  let raw := flat_map (fun j => htons (demod (bits_val (firstn 32 (skipn (32 * j) d)))))
               (seq 0 3078) in
  let o := write_mfm_iter (mk_stream w io (b :: bits_msb 32 0x552aaaaa ++ d ++ r)) st in
  it_done o = false /\ rest (it_s o) = r /\
  it_log o = [EvWindow (io + 1); EvAttempt idx raw] /\
  th (it_st o) = (if ok_count raw 0 6 =? 0 then th st else set_data_bitoff (th st) idx).
Proof.
  intros w io b d r st Hv Hm Hd idx raw o. subst o.
  rewrite iter_match by (exact Hv || (apply Z.eqb_eq; exact Hm)). cbv zeta.
  set (s1 := mk_stream (shift_in w b) (io + 1) (bits_msb 32 0x552aaaaa ++ d ++ r)).
  pose proof (next_bits_app _ _ s1 eq_refl) as Hn. rewrite length_bits_msb in Hn.
  destruct (read_raw_dat_slices 3078 d r
              (mk_stream (fold_left shift_in (bits_msb 32 0x552aaaaa) (word s1))
                 (index_offset s1 + Z.of_nat 32) (d ++ r)) eq_refl Hd) as [s' [E Hr]].
  assert (Hw : word (mk_stream (fold_left shift_in (bits_msb 32 0x552aaaaa) (word s1))
                       (index_offset s1 + Z.of_nat 32) (d ++ r)) = 0x552aaaaa)
    by (cbn [word]; rewrite shift_in_32 by apply length_bits_msb; reflexivity).
  rewrite (sync_attempt_ok _ _ _ _ _ _ Hn Hw E). fold raw idx.
  cbn [it_done it_s it_st it_log].
  split; [reflexivity|split; [exact Hr|split; [reflexivity|apply after_checks_th]]].
Qed.

Lemma C8_candidate_offset_minus_15_witness :
  let d := repeat false (32 * 3078) in
  let idx := (100 + 1 - 15) mod 2 ^ 32 in
  let raw := flat_map (fun j => htons (demod (bits_val (firstn 32 (skipn (32 * j) d)))))
               (seq 0 3078) in
  let o := write_mfm_iter (mk_stream 0x2244 100 (true :: bits_msb 32 0x552aaaaa ++ d ++ []))
             (init_dstate th0) in
  (it_done o = false /\ rest (it_s o) = [] /\
   it_log o = [EvWindow (100 + 1); EvAttempt idx raw] /\
   th (it_st o) = (if ok_count raw 0 6 =? 0 then th (init_dstate th0)
                   else set_data_bitoff (th (init_dstate th0)) idx)) /\
  ok_count raw 0 6 = 6 /\ data_bitoff (th (it_st o)) = 86.
Proof.
  cbv zeta.
  pose proof (C8_candidate_offset_minus_15 0x2244 100 true (repeat false (32 * 3078)) []
                (init_dstate th0) eq_refl eq_refl (repeat_length false (32 * 3078))) as H.
  cbv zeta in H.
  assert (Hc : ok_count (flat_map (fun j => htons (demod (bits_val (firstn 32
                  (skipn (32 * j) (repeat false (32 * 3078))))))) (seq 0 3078)) 0 6 = 6)
    by (rewrite demod_slices_zero; reflexivity).
  split; [exact H|split; [exact Hc|]].
  destruct H as (_ & _ & _ & Hth). rewrite Hth, Hc. reflexivity.
Defined.

(** C8 counterexample: a track rendered from the all-zero block with every
    sector valid, re-read with the counter at 100, has the mark as its
    bits 101-116 (the counter is 116 after it); the decoder records
    [data_bitoff = 101], not [116 - 16 = 100]. *)
Lemma C8_counterexample :
  let s := reread (lemmings_read_mfm 0 (th_map 63) B0) 100 in
  firstn 16 (rest s) = bits_msb 16 0x4489 /\
  match lemmings_write_mfm 0 th0 s return Prop with
  | (Some _, t2, _) => data_bitoff t2 = 101 /\ data_bitoff t2 <> (100 + 16) - 16
  | (None, _, _) => False
  end.
Proof.
  cbv zeta. split; [apply reread_mark|].
  pose proof (roundtrip_core 0 (th_map 63) th0 B0 100 eq_refl eq_refl) as H.
  cbv zeta in H.
  destruct (lemmings_write_mfm 0 th0 (reread (lemmings_read_mfm 0 (th_map 63) B0) 100))
    as [[res t2] s2].
  destruct H as [_ H]. destruct res as [blk|].
  - destruct H as (_ & _ & _ & _ & Hoff & _). rewrite Hoff. split; reflexivity || discriminate.
  - discriminate H.
Qed.

Lemma demod_range : forall w, 0 <= demod w < 2 ^ 16.
Proof.
  intros w.
  assert (Hnn : 0 <= demod w).
  { unfold demod. apply Z.lor_nonneg. split.
    - apply Z.shiftl_nonneg, Z.land_nonneg. right. lia.
    - apply Z.land_nonneg. right. lia. }
  assert (E : demod w = Z.land (demod w) (Z.ones 16)).
  { apply Z.bits_inj'. intros n Hn. rewrite Z.land_spec, Z.testbit_ones by lia.
    destruct (Z.lt_ge_cases n 16) as [Hlt|Hge].
    - replace (0 <=? n) with true by (symmetry; apply Z.leb_le; lia).
      replace (n <? 16) with true by (symmetry; apply Z.ltb_lt; lia).
      rewrite andb_true_r. reflexivity.
    - rewrite demod_high by lia. reflexivity. }
  rewrite E, Z.land_ones by lia. apply Z.mod_pos_bound. lia.
Qed.

Lemma demod_slices_length : forall l,
  length (flat_map (fun j => htons (demod (bits_val (firstn 32 (skipn (32 + 32 * j) l)))))
            (seq 0 3078)) = (2 * 3078)%nat.
Proof.
  intros l. rewrite (length_flat_map_const _ _ _ 2); [rewrite length_seq; lia|].
  intros x _. apply htons_length.
Qed.

(** C4 (amended): after the second mark word is confirmed, the decoder
    builds each of the 6 x 513 words from ONE 32-bit read: word [j] is
    [demod] of the [j]-th 32-bit slice after the mark, the upper half being
    the even plane (its even bits go to the odd positions of the word), the
    lower half the odd plane (its even bits stay at the even positions); the
    words are stored with [htons]; the attempt consumes exactly
    [32 * 3078] bits after the mark. *)
Theorem C4_demod_one_read_per_word : forall idx s1 st l r,
  rest s1 = l ++ r -> length l = (32 + 32 * 3078)%nat ->
  bits_val (firstn 32 l) = 0x552aaaaa ->
  let raw := flat_map (fun j => htons (demod (bits_val (firstn 32 (skipn (32 + 32 * j) l)))))
               (seq 0 3078) in
  (exists s', rest s' = r /\
     sync_attempt idx s1 st = mk_out false s' (after_checks idx raw st) [EvAttempt idx raw]) /\
  ntohs_words raw =
    map (fun j => demod (bits_val (firstn 32 (skipn (32 + 32 * j) l)))) (seq 0 3078) /\
  (forall w,
     (forall i, (i < 8)%nat ->
        Z.testbit (demod w) (Z.of_nat (2 * i + 1)) = Z.testbit w (Z.of_nat (16 + 2 * i)) /\
        Z.testbit (demod w) (Z.of_nat (2 * i)) = Z.testbit w (Z.of_nat (2 * i))) /\
     (forall n, 16 <= n -> Z.testbit (demod w) n = false) /\
     htons (demod w) = [demod w / 256; demod w mod 256]).
Proof.
  intros idx s1 st l r Hs Hl Hm raw.
  split; [exact (sync_slices idx s1 st l r Hs Hl Hm)|split].
  - subst raw. rewrite <- (flat_map_map _ _ _ htons). apply ntohs_words_htons.
    apply Forall_forall. intros x Hx. apply in_map_iff in Hx as (j & <- & _).
    apply demod_range.
  - intros w. split; [intros i Hi; apply demod_bits, Hi|split; [apply demod_high|]].
    unfold htons. pose proof (demod_range w).
    rewrite Z.shiftr_div_pow2 by lia. change (2 ^ 8) with 256. f_equal. f_equal.
    change 255 with (Z.ones 8). rewrite Z.land_ones by lia. reflexivity.
Qed.

Lemma confirm_stream_facts :
  let l := bits_msb 32 0x552aaaaa ++ repeat false (32 * 3078) in
  length l = (32 + 32 * 3078)%nat /\ bits_val (firstn 32 l) = 0x552aaaaa.
Proof.
  cbv zeta. rewrite length_app, repeat_length, length_bits_msb. split; [lia|].
  rewrite firstn_app, length_bits_msb, Nat.sub_diag, firstn_O, app_nil_r.
  rewrite firstn_all2 by (rewrite length_bits_msb; lia). reflexivity.
Qed.

Lemma C4_demod_one_read_per_word_witness :
  let l := bits_msb 32 0x552aaaaa ++ repeat false (32 * 3078) in
  let raw := flat_map (fun j => htons (demod (bits_val (firstn 32 (skipn (32 + 32 * j) l)))))
               (seq 0 3078) in
  (exists s', rest s' = [] /\
     sync_attempt 0 (mk_stream 0 0 (l ++ [])) (init_dstate th0)
     = mk_out false s' (after_checks 0 raw (init_dstate th0)) [EvAttempt 0 raw]) /\
  ntohs_words raw =
    map (fun j => demod (bits_val (firstn 32 (skipn (32 + 32 * j) l)))) (seq 0 3078) /\
  (forall w,
     (forall i, (i < 8)%nat ->
        Z.testbit (demod w) (Z.of_nat (2 * i + 1)) = Z.testbit w (Z.of_nat (16 + 2 * i)) /\
        Z.testbit (demod w) (Z.of_nat (2 * i)) = Z.testbit w (Z.of_nat (2 * i))) /\
     (forall n, 16 <= n -> Z.testbit (demod w) n = false) /\
     htons (demod w) = [demod w / 256; demod w mod 256]).
Proof.
  apply (C4_demod_one_read_per_word 0 (mk_stream 0 0 (_ ++ [])) (init_dstate th0) _ []).
  - reflexivity.
  - rewrite length_app, repeat_length, length_bits_msb. reflexivity.
  - reflexivity.
Defined.

(** C4 counterexample: a stream made of the second mark word and then
    exactly [32 * 3078] bits is enough for a full attempt: all 3078 words
    (6156 bytes) are demodulated and the stream is exhausted, whereas two
    32-bit reads per word would need twice as many bits. *)
Lemma C4_counterexample :
  let l := bits_msb 32 0x552aaaaa ++ repeat false (32 * 3078) in
  let o := sync_attempt 0 (mk_stream 0 0 l) (init_dstate th0) in
  length l = (32 + 32 * 3078)%nat /\ it_done o = false /\ rest (it_s o) = [] /\
  exists raw, it_log o = [EvAttempt 0 raw] /\ length raw = (2 * 3078)%nat.
Proof.
  destruct confirm_stream_facts as [Hl Hm]. cbv zeta in Hl, Hm |- *.
  destruct (sync_slices 0 (mk_stream 0 0 (bits_msb 32 0x552aaaaa ++ repeat false (32 * 3078)))
              (init_dstate th0) _ [] (eq_sym (app_nil_r _)) Hl Hm) as (s' & Hr & E).
  rewrite E. cbn [it_done it_s it_log]. split; [exact Hl|split; [reflexivity|split; [exact Hr|]]].
  eexists. split; [reflexivity|]. apply demod_slices_length.
Qed.

Lemma ok_count_filter : forall raw n j,
  ok_count raw j n = Z.of_nat (length (filter (sector_ok raw) (seq j n))).
Proof.
  intros raw n. induction n as [|n IH]; intros j; [reflexivity|].
  cbn [ok_count seq filter]. rewrite IH.
  destruct (sector_ok raw j); cbn [length]; lia.
Qed.

(** C5: on a full [raw_dat] (6 x 513 words as bytes), for each sector [j]
    the group [g] of words [513 j .. 513 j + 512] has its word 0 as the
    expected checksum and words 1..512 as the body (the 1024 bytes copied
    to slot [j]); the pass sets bit [j] and copies the body into slot [j]
    exactly when the wrap-around sum of the body equals the checksum, and
    otherwise leaves bit and slot as they were; [nr_valid] counts the
    sectors that passed, the bits above 5 are not touched. *)
Theorem C5_sector_check_spec : forall raw blk valid,
  length raw = (2 * 3078)%nat -> length blk = (6 * 1024)%nat ->
  let '(blk', valid', nr') := check_sectors 0 6 raw blk valid 0 in
  length blk' = (6 * 1024)%nat /\
  nr' = Z.of_nat (length (filter (sector_ok raw) (seq 0 6))) /\
  (forall n, 6 <= n -> Z.testbit valid' n = Z.testbit valid n) /\
  (forall j, (j < 6)%nat ->
     let g := firstn 513 (skipn (j * 513) (ntohs_words raw)) in
     let ok := sum16 (skipn 1 g) =? nth 0 g 0 in
     sector_ok raw j = ok /\
     length (raw_sector_body raw j) = 1024%nat /\
     ntohs_words (raw_sector_body raw j) = skipn 1 g /\
     Z.testbit valid' (Z.of_nat j) = Z.testbit valid (Z.of_nat j) || ok /\
     slot j blk' = if ok then raw_sector_body raw j else slot j blk).
Proof.
  intros raw blk valid Hr Hb.
  pose proof (check_sectors_spec 6 0 raw blk valid 0 Hb (le_n 6)
                (fun k Hk => length_raw_sector_body raw k Hr Hk)) as H.
  destruct (check_sectors 0 6 raw blk valid 0) as [[blk' valid'] nr'].
  destruct H as (Hl & Hv & Hn & Hs).
  split; [exact Hl|split; [rewrite Hn, ok_count_filter; reflexivity|split]].
  - intros n Hn6. rewrite Hv, Z.lor_spec, testbit_ok_mask_high by exact Hn6.
    apply orb_false_r.
  - intros j Hj g ok.
    destruct (group_views raw j Hr Hj) as [Hc Hbody]. fold g in Hc, Hbody.
    assert (Hok : sector_ok raw j = ok)
      by (subst ok; rewrite Hbody, Hc; reflexivity).
    split; [exact Hok|split; [apply length_raw_sector_body; assumption|split; [symmetry; exact Hbody|split]]].
    + rewrite Hv, Z.lor_spec, testbit_ok_mask_6 by exact Hj. rewrite Hok. reflexivity.
    + rewrite (Hs j Hj), <- Hok.
      replace ((0 <=? j)%nat && (j <? 0 + 6)%nat) with true
        by (symmetry; apply andb_true_iff; split; [apply Nat.leb_le | apply Nat.ltb_lt]; lia).
      reflexivity.
Qed.

Lemma C5_sector_check_spec_witness :
  let '(blk', valid', nr') := check_sectors 0 6 (repeat 0 (2 * 3078)) B0 0 0 in
  length blk' = (6 * 1024)%nat /\
  nr' = Z.of_nat (length (filter (sector_ok (repeat 0 (2 * 3078))) (seq 0 6))) /\
  (forall n, 6 <= n -> Z.testbit valid' n = Z.testbit 0 n) /\
  (forall j, (j < 6)%nat ->
     let g := firstn 513 (skipn (j * 513) (ntohs_words (repeat 0 (2 * 3078)))) in
     let ok := sum16 (skipn 1 g) =? nth 0 g 0 in
     sector_ok (repeat 0 (2 * 3078)) j = ok /\
     length (raw_sector_body (repeat 0 (2 * 3078)) j) = 1024%nat /\
     ntohs_words (raw_sector_body (repeat 0 (2 * 3078)) j) = skipn 1 g /\
     Z.testbit valid' (Z.of_nat j) = Z.testbit 0 (Z.of_nat j) || ok /\
     slot j blk' = if ok then raw_sector_body (repeat 0 (2 * 3078)) j else slot j B0).
Proof. apply C5_sector_check_spec; reflexivity. Defined.

(** What a decoder call returns, in terms of the events of its run. *)
Lemma decode_spec : forall tr t s,
  let log := write_mfm_log (loop_fuel s) s (init_dstate t) in
  let '(res, t2, s2) := lemmings_write_mfm tr t s in
  (rest s2 = [] \/ fold_left ev_mask log 0 = 63) /\
  data_bitoff t2 = fold_left ev_off log (data_bitoff t) /\
  match res with
  | None => fold_left ev_mask log 0 = 0
  | Some blk =>
      fold_left ev_mask log 0 <> 0 /\ length blk = (6 * 1024)%nat /\
      (forall k, (k < 6)%nat -> slot k blk = fold_left (ev_body k) log (slot k sentinel)) /\
      bytes_per_sector t2 = 1024 /\ nr_sectors t2 = 6 /\ len t2 = 6144 /\
      track_valid_sector_map t2 = fold_left ev_mask log 0
  end.
Proof.
  intros tr t s log.
  pose proof (write_mfm_result tr t s) as R.
  pose proof (loop_exit (loop_fuel s) s (init_dstate t) (Nat.lt_succ_diag_r _)) as X.
  pose proof (run_spec (loop_fuel s) s (init_dstate t) length_sentinel) as P.
  cbv zeta in P. fold log in P.
  destruct (write_mfm_loop (loop_fuel s) s (init_dstate t)) as [s2 st2].
  cbn [snd block valid_blocks th init_dstate] in P.
  destruct P as (Hl & Hv & Hs & Ho). rewrite R.
  rewrite <- Hv. destruct (Z.eqb_spec (valid_blocks st2) 0) as [E|E].
  - split; [exact X|split; [exact Ho|exact E]].
  - split; [exact X|]. cbn [data_bitoff]. split; [exact Ho|].
    split; [exact E|]. split; [exact Hl|]. split; [exact Hs|].
    repeat split; reflexivity.
Qed.

Lemma fold_ev_mask_zero : forall log v,
  fold_left ev_mask log v = 0 <->
  v = 0 /\ (forall idx raw, In (EvAttempt idx raw) log -> ok_mask raw 0 6 = 0).
Proof.
  induction log as [|e log IH]; intros v; cbn [fold_left].
  - split; [intros H; split; [exact H|intros ? ? []]|intros [H _]; exact H].
  - rewrite IH. destruct e as [io|i r]; cbn [ev_mask].
    + split.
      * intros [H1 H2]. split; [exact H1|]. intros idx raw [E|Hin]; [discriminate|].
        apply (H2 idx raw Hin).
      * intros [H1 H2]. split; [exact H1|]. intros idx raw Hin. apply (H2 idx raw).
        right. exact Hin.
    + rewrite Z.lor_eq_0_iff. split.
      * intros [[H1 H3] H2]. split; [exact H1|]. intros idx raw [E|Hin].
        -- injection E as <- <-. exact H3.
        -- apply (H2 idx raw Hin).
      * intros [H1 H2]. split; [split; [exact H1|apply (H2 i r); left; reflexivity]|].
        intros idx raw Hin. apply (H2 idx raw). right. exact Hin.
Qed.

(** C6: the decoder returns "no data" ([NULL], no block) exactly when the
    stream was read to its end and no attempt of the run validated a
    sector; otherwise the header gets 1024 bytes per sector, 6 sectors,
    length 6144 and the map of the validated sectors (not zero), and the
    block is returned. *)
Theorem C6_no_data_iff_exhausted_unvalidated : forall tr t s,
  let log := write_mfm_log (loop_fuel s) s (init_dstate t) in
  let '(res, t2, s2) := lemmings_write_mfm tr t s in
  (res = None <->
   rest s2 = [] /\ (forall idx raw, In (EvAttempt idx raw) log -> ok_mask raw 0 6 = 0)) /\
  match res with
  | None => True
  | Some blk =>
      length blk = (6 * 1024)%nat /\
      bytes_per_sector t2 = 1024 /\ nr_sectors t2 = 6 /\ len t2 = 6144 /\
      track_valid_sector_map t2 = fold_left ev_mask log 0 /\
      track_valid_sector_map t2 <> 0
  end.
Proof.
  intros tr t s log. pose proof (decode_spec tr t s) as D. cbv zeta in D. fold log in D.
  destruct (lemmings_write_mfm tr t s) as [[res t2] s2].
  destruct D as (X & _ & D). destruct res as [blk|].
  - destruct D as (Hne & Hl & _ & Hb & Hn & Hlen & Hm).
    split.
    + split; [discriminate|]. intros [_ H]. exfalso. apply Hne.
      apply fold_ev_mask_zero. split; [reflexivity|exact H].
    + repeat split; try assumption. rewrite Hm. exact Hne.
  - split; [|exact I]. split; [intros _|reflexivity].
    destruct X as [X|X]; [|rewrite D in X; discriminate X].
    apply fold_ev_mask_zero in D as [_ D]. split; [exact X|exact D].
Qed.

Lemma testbit_fold_ev_mask : forall log v k, (k < 6)%nat ->
  Z.testbit (fold_left ev_mask log v) (Z.of_nat k) =
  Z.testbit v (Z.of_nat k) ||
  existsb (fun e => match e with EvWindow _ => false | EvAttempt _ raw => sector_ok raw k end) log.
Proof.
  induction log as [|e log IH]; intros v k Hk; cbn [fold_left existsb].
  - rewrite orb_false_r. reflexivity.
  - rewrite IH by exact Hk. destruct e as [io|i r]; cbn [ev_mask].
    + reflexivity.
    + rewrite Z.lor_spec, testbit_ok_mask_6 by exact Hk. symmetry. apply orb_assoc.
Qed.

(** C7: a sector check records its candidate offset as [data_bitoff]
    exactly when at least one sector validated in it ([nr_valid <> 0]);
    over a decoder call, [data_bitoff] is that of the last attempt that
    validated a sector (or the caller's value if none did). *)
Theorem C7_data_bitoff_last_success : forall tr t s,
  let log := write_mfm_log (loop_fuel s) s (init_dstate t) in
  let '(_, t2, _) := lemmings_write_mfm tr t s in
  (forall idx raw st,
     data_bitoff (th (after_checks idx raw st)) =
       (if ok_count raw 0 6 =? 0 then data_bitoff (th st) else idx)) /\
  data_bitoff t2 = fold_left ev_off log (data_bitoff t) /\
  ((forall idx raw, In (EvAttempt idx raw) log -> ok_count raw 0 6 = 0) ->
   data_bitoff t2 = data_bitoff t) /\
  (forall l1 idx raw l2,
     log = l1 ++ EvAttempt idx raw :: l2 -> ok_count raw 0 6 <> 0 ->
     (forall i r, In (EvAttempt i r) l2 -> ok_count r 0 6 = 0) ->
     data_bitoff t2 = idx).
Proof.
  intros tr t s log. pose proof (decode_spec tr t s) as D. cbv zeta in D. fold log in D.
  destruct (lemmings_write_mfm tr t s) as [[res t2] s2].
  destruct D as (_ & Ho & _).
  split; [intros idx raw st; apply after_checks_valid|].
  split; [exact Ho|split].
  - intros H. rewrite Ho. clear Ho. generalize (data_bitoff t).
    induction log as [|e l IH]; intros o; [reflexivity|].
    cbn [fold_left]. destruct e as [io|i r]; cbn [ev_off].
    + apply IH. intros idx raw Hin. apply (H idx raw). right. exact Hin.
    + rewrite (H i r (or_introl eq_refl)). cbn [Z.eqb]. apply IH.
      intros idx raw Hin. apply (H idx raw). right. exact Hin.
  - intros l1 idx raw l2 E Hn Hl2. rewrite Ho, E. apply ev_off_last; assumption.
Qed.

(** C10: a pass of the loop never clears a bit of [valid_blocks]; the map of
    a decoder call is the union of the sectors validated by its attempts
    (bit [k] set exactly when some attempt validated sector [k]), and slot
    [k] of the returned block holds the body of the last attempt that
    validated sector [k]. *)
Theorem C10_valid_mask_union : forall tr t s,
  let log := write_mfm_log (loop_fuel s) s (init_dstate t) in
  let '(res, t2, _) := lemmings_write_mfm tr t s in
  (forall s' st k, Z.testbit (valid_blocks st) k = true ->
     Z.testbit (valid_blocks (it_st (write_mfm_iter s' st))) k = true) /\
  match res with
  | None =>
      forall k, (k < 6)%nat -> forall idx raw, In (EvAttempt idx raw) log ->
      sector_ok raw k = false
  | Some blk =>
      (forall k, (k < 6)%nat ->
         Z.testbit (track_valid_sector_map t2) (Z.of_nat k) =
         existsb (fun e => match e with EvWindow _ => false
                                   | EvAttempt _ raw => sector_ok raw k end) log) /\
      (forall n, 6 <= n -> Z.testbit (track_valid_sector_map t2) n = false) /\
      (forall k, (k < 6)%nat ->
         slot k blk = fold_left (ev_body k) log (slot k sentinel) /\
         (forall l1 idx raw l2,
            log = l1 ++ EvAttempt idx raw :: l2 -> sector_ok raw k = true ->
            (forall i r, In (EvAttempt i r) l2 -> sector_ok r k = false) ->
            slot k blk = raw_sector_body raw k))
  end.
Proof.
  intros tr t s log. pose proof (decode_spec tr t s) as D. cbv zeta in D. fold log in D.
  destruct (lemmings_write_mfm tr t s) as [[res t2] s2].
  destruct D as (_ & _ & D).
  split; [apply iter_valid_mono|].
  assert (Hhigh : forall l v n, 6 <= n -> Z.testbit v n = false ->
            Z.testbit (fold_left ev_mask l v) n = false).
  { induction l as [|e l IH]; intros v n Hn Hv; [exact Hv|].
    cbn [fold_left]. apply IH; [exact Hn|]. destruct e as [io|i r]; cbn [ev_mask].
    - exact Hv.
    - rewrite Z.lor_spec, Hv, testbit_ok_mask_high by exact Hn. reflexivity. }
  destruct res as [blk|].
  - destruct D as (_ & _ & Hs & _ & _ & _ & Hm). rewrite Hm.
    split; [intros k Hk; rewrite testbit_fold_ev_mask, Z.testbit_0_l by exact Hk; reflexivity|].
    split; [intros n Hn; apply Hhigh; [exact Hn|apply Z.testbit_0_l]|].
    intros k Hk. rewrite (Hs k Hk). split; [reflexivity|].
    intros l1 idx raw l2 E Hok Hl2. rewrite E. apply ev_body_last; assumption.
  - intros k Hk idx raw Hin.
    pose proof (testbit_fold_ev_mask log 0 k Hk) as T. rewrite D, Z.testbit_0_l in T.
    cbn [orb] in T. destruct (sector_ok raw k) eqn:E; [|reflexivity].
    assert (Ex : existsb (fun e => match e with EvWindow _ => false
                                   | EvAttempt _ raw => sector_ok raw k end) log = true)
      by (apply existsb_exists; exists (EvAttempt idx raw); split; assumption).
    rewrite Ex in T. discriminate T.
Qed.

(** C9: the encoder's emissions are the mark [0x4489] as 16 raw bits, then
    [0xf000] as 16 data bits (which the track-buffer writer renders as the
    MFM cells [0x552aaaaa], the second mark word), then for the 6 sectors
    in order: the checksum word (the sum, complemented when the sector's
    bit is unset) emitted twice at full width, tagged even then odd, then
    each of the 512 data words in order, tagged even then odd. *)
Theorem C9_encoder_emission_sequence : forall tr t B,
  let V := track_valid_sector_map t in
  let calls :=
    [tbuf_bits TBUFDAT_raw 16 0x4489; tbuf_bits TBUFDAT_all 16 0xf000] ++
    flat_map (fun j =>
      let ws := ntohs_words (slot j B) in
      let c := if Z.testbit V (Z.of_nat j) then sum16 ws
               else Z.land (Z.lnot (sum16 ws)) 0xffff in
      [tbuf_bits TBUFDAT_even 16 c; tbuf_bits TBUFDAT_odd 16 c] ++
      flat_map (fun w => [tbuf_bits TBUFDAT_even 16 w; tbuf_bits TBUFDAT_odd 16 w]) ws)
      (seq 0 6) in
  tb_calls (lemmings_read_mfm tr t B) = calls /\
  firstn 48 (tbuf_render false calls) = bits_msb 16 0x4489 ++ bits_msb 32 0x552aaaaa.
Proof.
  intros tr t B V calls.
  assert (E : tb_calls (lemmings_read_mfm tr t B) = calls).
  { rewrite read_mfm_calls. subst calls. f_equal. unfold enc_words.
    rewrite flat_map_flat_map. apply flat_map_ext. intros j.
    unfold sector_words, enc_csum. rewrite mask_bit. fold V.
    cbn [flat_map]. destruct (Z.testbit V (Z.of_nat j)); reflexivity. }
  split; [exact E|]. rewrite <- E, read_mfm_calls, render_header, app_assoc.
  rewrite firstn_app, length_app, !length_bits_msb, Nat.sub_diag, firstn_O, app_nil_r.
  apply firstn_all2. rewrite length_app, !length_bits_msb. lia.
Qed.
(** * Further properties of the handler *)

(** ** Encoder *)

Lemma read_mfm_sectors_low_bits : forall n i V V' dat, (i + n <= 6)%nat ->
  Z.land V 63 = Z.land V' 63 ->
  read_mfm_sectors i n V dat = read_mfm_sectors i n V' dat.
Proof.
  induction n as [|n IH]; intros i V V' dat Hin HV; [reflexivity|].
  cbn [read_mfm_sectors]. rewrite (IH (S i) V V') by (assumption || lia).
  rewrite !mask_bit.
  replace (Z.testbit V (Z.of_nat i)) with (Z.testbit V' (Z.of_nat i)); [reflexivity|].
  assert (T : forall X, Z.testbit X (Z.of_nat i) = Z.testbit (Z.land X 63) (Z.of_nat i)).
  { intros X. rewrite Z.land_spec.
    replace (Z.testbit 63 (Z.of_nat i)) with true; [rewrite andb_true_r; reflexivity|].
    rewrite testbit_63 by lia. symmetry. apply Z.ltb_lt. lia. }
  rewrite (T V), (T V'), HV. reflexivity.
Qed.

Lemma read_mfm_sectors_firstn : forall n i V dat,
  read_mfm_sectors i n V dat = read_mfm_sectors i n V (firstn (n * 1024) dat).
Proof.
  induction n as [|n IH]; intros i V dat; [reflexivity|].
  cbn [read_mfm_sectors]. rewrite firstn_firstn.
  replace (Init.Nat.min 1024 (S n * 1024)) with 1024%nat by lia.
  rewrite skipn_firstn_comm. replace (S n * 1024 - 1024)%nat with (n * 1024)%nat by lia.
  rewrite (IH (S i) V (skipn 1024 dat)). reflexivity.
Qed.

(** The encoder makes [2 + 6 * 1026 = 6158] calls of [tbuf_bits] for a
    6 x 1024 byte block, every one of 16 bits at [DEFAULT_SPEED]. *)
Theorem read_mfm_call_shape : forall tr t B, length B = (6 * 1024)%nat ->
  let calls := tb_calls (lemmings_read_mfm tr t B) in
  length calls = (2 + 6 * 1026)%nat /\
  Forall (fun c => tc_speed c = DEFAULT_SPEED /\ tc_bits c = 16%nat) calls.
Proof.
  intros tr t B HB calls. subst calls. rewrite read_mfm_calls. split.
  - rewrite length_app, (length_flat_map_const _ _ _ 2), enc_words_length by
      (assumption || (intros; reflexivity)).
    reflexivity.
  - apply Forall_app. split.
    + repeat constructor.
    + apply Forall_flat_map_intro. intros x _. repeat constructor.
Qed.

Lemma read_mfm_call_shape_witness :
  let calls := tb_calls (lemmings_read_mfm 0 th0 B0) in
  length calls = (2 + 6 * 1026)%nat /\
  Forall (fun c => tc_speed c = DEFAULT_SPEED /\ tc_bits c = 16%nat) calls.
Proof. apply read_mfm_call_shape. reflexivity. Defined.

(** The encoder uses only the low 6 bits of the validity map: two headers
    with the same low 6 bits, start and length give the same track buffer. *)
Theorem read_mfm_ignores_high_map_bits : forall tr t t' B,
  Z.land (track_valid_sector_map t) 63 = Z.land (track_valid_sector_map t') 63 ->
  data_bitoff t = data_bitoff t' -> total_bits t = total_bits t' ->
  lemmings_read_mfm tr t B = lemmings_read_mfm tr t' B.
Proof.
  intros tr t t' B HV Ho Hl. unfold lemmings_read_mfm.
  rewrite Ho, Hl, (read_mfm_sectors_low_bits 6 0 _ _ B (le_n 6) HV). reflexivity.
Qed.

Lemma read_mfm_ignores_high_map_bits_witness :
  lemmings_read_mfm 0 (th_map (64 + 5)) B0 = lemmings_read_mfm 0 (th_map 5) B0.
Proof. apply read_mfm_ignores_high_map_bits; reflexivity. Defined.

(** The encoder reads only the 6 x 1024 bytes of the block: bytes past them
    never change the track buffer. *)
Theorem read_mfm_reads_6144_bytes : forall tr t B extra,
  length B = (6 * 1024)%nat ->
  lemmings_read_mfm tr t (B ++ extra) = lemmings_read_mfm tr t B.
Proof.
  intros tr t B extra HB. unfold lemmings_read_mfm.
  rewrite (read_mfm_sectors_firstn 6 0 _ (B ++ extra)), (read_mfm_sectors_firstn 6 0 _ B).
  rewrite firstn_app, HB, Nat.sub_diag, firstn_O, app_nil_r. reflexivity.
Qed.

Lemma read_mfm_reads_6144_bytes_witness :
  lemmings_read_mfm 0 (th_map 63) (B0 ++ [1; 2; 3]) = lemmings_read_mfm 0 (th_map 63) B0.
Proof. apply read_mfm_reads_6144_bytes. reflexivity. Defined.

(** ** Decoder *)

Lemma fold_apply_total_bits : forall log st,
  total_bits (th (fold_left apply_event log st)) = total_bits (th st).
Proof.
  induction log as [|e log IH]; intros st; [reflexivity|].
  cbn [fold_left]. rewrite IH. destruct e as [io|idx raw]; [reflexivity|].
  cbn [apply_event]. rewrite after_checks_th.
  destruct (ok_count raw 0 6 =? 0); reflexivity.
Qed.

Lemma fold_apply_th_quiet : forall log st,
  (forall idx raw, In (EvAttempt idx raw) log -> ok_mask raw 0 6 = 0) ->
  th (fold_left apply_event log st) = th st.
Proof.
  induction log as [|e log IH]; intros st H; [reflexivity|].
  cbn [fold_left]. rewrite IH by (intros idx raw Hin; apply (H idx raw); right; exact Hin).
  destruct e as [io|idx raw]; [reflexivity|].
  cbn [apply_event]. rewrite after_checks_th, ok_count_zero, (H idx raw) by (left; reflexivity).
  reflexivity.
Qed.

Lemma ok_mask_nonneg : forall raw j n, 0 <= ok_mask raw j n.
Proof.
  intros raw j n. revert j. induction n as [|n IH]; intros j; cbn [ok_mask]; [lia|].
  apply Z.lor_nonneg. split; [|apply IH].
  destruct (sector_ok raw j); [apply Z.shiftl_nonneg; lia | lia].
Qed.

Lemma fold_ev_mask_nonneg : forall log v, 0 <= v -> 0 <= fold_left ev_mask log v.
Proof.
  induction log as [|e log IH]; intros v Hv; [exact Hv|].
  cbn [fold_left]. apply IH. destruct e; cbn [ev_mask]; [exact Hv|].
  apply Z.lor_nonneg. split; [exact Hv | apply ok_mask_nonneg].
Qed.

Lemma fold_ev_mask_high : forall log v n, 6 <= n -> Z.testbit v n = false ->
  Z.testbit (fold_left ev_mask log v) n = false.
Proof.
  induction log as [|e log IH]; intros v n Hn Hv; [exact Hv|].
  cbn [fold_left]. apply IH; [exact Hn|]. destruct e as [io|i r]; cbn [ev_mask].
  - exact Hv.
  - rewrite Z.lor_spec, Hv, testbit_ok_mask_high by exact Hn. reflexivity.
Qed.

Lemma small_of_high_bits : forall v, 0 <= v -> (forall n, 6 <= n -> Z.testbit v n = false) ->
  v < 64.
Proof.
  intros v Hv Hh.
  assert (E : v = Z.land v (Z.ones 6)).
  { apply Z.bits_inj'. intros n Hn. rewrite Z.land_spec, Z.testbit_ones by lia.
    destruct (Z.lt_ge_cases n 6) as [Hlt|Hge].
    - replace (0 <=? n) with true by (symmetry; apply Z.leb_le; lia).
      replace (n <? 6) with true by (symmetry; apply Z.ltb_lt; lia).
      rewrite andb_true_r. reflexivity.
    - rewrite Hh by lia. reflexivity. }
  rewrite E, Z.land_ones by lia. apply Z.mod_pos_bound. lia.
Qed.

Lemma fold_ev_body_quiet : forall k log b,
  (forall i r, In (EvAttempt i r) log -> sector_ok r k = false) ->
  fold_left (ev_body k) log b = b.
Proof.
  intros k. induction log as [|e log IH]; intros b H; [reflexivity|].
  cbn [fold_left]. destruct e as [io|i r]; cbn [ev_body].
  - apply IH. intros i r Hin. apply (H i r). right. exact Hin.
  - rewrite (H i r) by (left; reflexivity). apply IH.
    intros i' r' Hin. apply (H i' r'). right. exact Hin.
Qed.

Lemma slot_sentinel : forall k, (k < 6)%nat -> slot k sentinel = concat (repeat [78; 76; 69; 77] 256).
Proof.
  intros k Hk.
  do 6 (destruct k as [|k]; [reflexivity|]). lia.
Qed.

(** A stream in which no 16-bit window is the mark word [0x4489] gives no
    data: the decoder reads the whole stream, returns [NULL] and leaves the
    header as it was. *)
Theorem write_mfm_no_mark : forall tr t w io l, no_mark l w = true ->
  lemmings_write_mfm tr t (mk_stream w io l) =
  (None, t, mk_stream (fold_left shift_in l w) (io + Z.of_nat (length l)) []).
Proof.
  intros tr t w io l Hn. unfold lemmings_write_mfm, loop_fuel. cbn [rest].
  replace (write_mfm_loop (S (length l)) (mk_stream w io l) (init_dstate t))
    with (write_mfm_loop (length l + 1) (mk_stream w io (l ++ [])) (init_dstate t))
    by (rewrite app_nil_r, Nat.add_1_r; reflexivity).
  rewrite loop_scan by (exact Hn || reflexivity).
  rewrite loop_end by reflexivity. reflexivity.
Qed.

Lemma write_mfm_no_mark_witness :
  lemmings_write_mfm 0 th0 (mk_stream 0 0 [true; false; false; true]) =
  (None, th0, mk_stream (fold_left shift_in [true; false; false; true] 0)
                (0 + Z.of_nat (length [true; false; false; true])) []).
Proof. apply write_mfm_no_mark. reflexivity. Defined.

Lemma write_mfm_header_facts : forall tr t s,
  let '(res, t2, _) := lemmings_write_mfm tr t s in
  total_bits t2 = total_bits t /\ (res = None -> t2 = t).
Proof.
  intros tr t s. pose proof (write_mfm_result tr t s) as R.
  destruct (loop_replay (loop_fuel s) s (init_dstate t)) as [E _].
  destruct (write_mfm_loop (loop_fuel s) s (init_dstate t)) as [s2 st2].
  cbn [snd] in E. rewrite R.
  assert (Tb : total_bits (th st2) = total_bits t)
    by (rewrite E, fold_apply_total_bits; reflexivity).
  destruct (Z.eqb_spec (valid_blocks st2) 0) as [V|V].
  - split; [exact Tb|intros _].
    rewrite E in V |- *. rewrite fold_apply_valid in V. cbn [valid_blocks init_dstate] in V.
    apply fold_ev_mask_zero in V as [_ V]. rewrite fold_apply_th_quiet by exact V.
    reflexivity.
  - split; [exact Tb|discriminate].
Qed.

(** The decoder never changes the track's [total_bits]; when it returns
    [NULL] it hands back the header exactly as it received it. *)
Theorem write_mfm_null_keeps_header : forall tr t s,
  let '(res, t2, _) := lemmings_write_mfm tr t s in
  total_bits t2 = total_bits t /\ (res = None -> t2 = t).
Proof. apply write_mfm_header_facts. Qed.

(** When the decoder returns a block, the map it writes is a non-empty
    6-bit mask, and every sector whose bit is unset still holds the filler
    ["NLEM"] repeated 256 times. *)
Theorem write_mfm_unset_sectors_nlem : forall tr t s,
  let '(res, t2, _) := lemmings_write_mfm tr t s in
  match res with
  | None => True
  | Some blk =>
      0 < track_valid_sector_map t2 < 64 /\
      forall k, (k < 6)%nat -> Z.testbit (track_valid_sector_map t2) (Z.of_nat k) = false ->
        slot k blk = concat (repeat [78; 76; 69; 77] 256)
  end.
Proof.
  intros tr t s. pose proof (decode_spec tr t s) as D. cbv zeta in D.
  set (log := write_mfm_log (loop_fuel s) s (init_dstate t)) in D.
  destruct (lemmings_write_mfm tr t s) as [[res t2] s2].
  destruct D as (_ & _ & D). destruct res as [blk|]; [|exact I].
  destruct D as (Hne & _ & Hs & _ & _ & _ & Hm). rewrite Hm.
  pose proof (fold_ev_mask_nonneg log 0 (Z.le_refl 0)) as Hnn.
  split; [split; [lia|]|].
  - apply small_of_high_bits; [exact Hnn|]. intros n Hn.
    apply fold_ev_mask_high; [exact Hn | apply Z.testbit_0_l].
  - intros k Hk Hb. rewrite (Hs k Hk), <- (slot_sentinel k Hk).
    apply fold_ev_body_quiet. intros i r Hin.
    rewrite testbit_fold_ev_mask, Z.testbit_0_l in Hb by exact Hk. cbn [orb] in Hb.
    destruct (sector_ok r k) eqn:E; [|reflexivity].
    assert (Ex : existsb (fun e => match e with EvWindow _ => false
                                   | EvAttempt _ raw => sector_ok raw k end) log = true)
      by (apply existsb_exists; exists (EvAttempt i r); split; assumption).
    rewrite Ex in Hb. discriminate Hb.
Qed.

Lemma read_raw_dat_some_rest : forall n s raw s',
  read_raw_dat n s = (Some raw, s') -> length (rest s) = (length (rest s') + 32 * n)%nat.
Proof.
  induction n as [|n IH]; intros s raw s' H.
  - cbn in H. injection H as _ <-. lia.
  - cbn [read_raw_dat] in H. pose proof (next_bits_len 32 s) as [_ L].
    destruct (stream_next_bits s 32) as [x s1]. cbn [fst snd] in L.
    destruct (Z.eqb_spec x (-1)) as [Hx|Hx]; [discriminate|].
    destruct (read_raw_dat n s1) as [[raw1|] s2] eqn:E; cbn [option_map] in H; [|discriminate].
    injection H as _ <-. rewrite (L Hx), (IH _ _ _ E). lia.
Qed.

(** A pass that runs a sector check has read at least the bit completing
    the mark, the second mark word and the 3078 data words. *)
Lemma iter_attempt_len : forall s st i r,
  In (EvAttempt i r) (it_log (write_mfm_iter s st)) ->
  (32 * 3079 + 1 <= length (rest s))%nat.
Proof.
  intros s st i r H. unfold write_mfm_iter, stream_next_bit in H.
  destruct (rest s) as [|b r0] eqn:Hs; [destruct H|].
  rewrite b2z_neq_m1 in H. destruct (valid_blocks st =? 63); [destruct H|].
  set (s1 := mk_stream ((2 * word s + Z.b2z b) mod 2 ^ 32) (index_offset s + 1) r0) in H.
  destruct (negb (word s1 mod 2 ^ 16 =? 0x4489)).
  { destruct H as [H|[]]. discriminate H. }
  cbn [it_log] in H. destruct H as [H|H]; [discriminate H|].
  unfold sync_attempt in H.
  pose proof (next_bits_len 32 s1) as [_ L1].
  destruct (stream_next_bits s1 32) as [x s2]. cbn [fst snd] in L1.
  destruct (Z.eqb_spec x (-1)) as [Hx|Hx]; [destruct H|].
  destruct (negb (word s2 =? 0x552aaaaa)); [destruct H|].
  destruct (read_raw_dat 3078 s2) as [[raw|] s3] eqn:E; [|destruct H].
  apply read_raw_dat_some_rest in E. specialize (L1 Hx). subst s1. cbn [rest length] in *. lia.
Qed.

Lemma log_attempt_len : forall fuel s st i r,
  In (EvAttempt i r) (write_mfm_log fuel s st) ->
  (32 * 3079 + 1 <= length (rest s))%nat.
Proof.
  induction fuel as [|f IH]; intros s st i r H; [destruct H|].
  cbn [write_mfm_log] in H. pose proof (iter_progress s st) as P. cbv zeta in P.
  destruct (it_done (write_mfm_iter s st)).
  - exact (iter_attempt_len s st i r H).
  - apply in_app_or in H as [H|H].
    + exact (iter_attempt_len s st i r H).
    + specialize (IH _ _ i r H). lia.
Qed.

(** A stream with at most [32 * 3079] bits left, too short for the bit
    completing a mark, the second mark word and the 3078 data words, gives
    no data: the decoder reads it to its end, returns [NULL] and leaves the
    header as it was. *)
Theorem write_mfm_short_stream_null : forall tr t s,
  (length (rest s) <= 32 * 3079)%nat ->
  let '(res, t2, s2) := lemmings_write_mfm tr t s in
  res = None /\ t2 = t /\ rest s2 = [].
Proof.
  intros tr t s Hs. pose proof (decode_spec tr t s) as D. cbv zeta in D.
  pose proof (write_mfm_header_facts tr t s) as Hh.
  set (log := write_mfm_log (loop_fuel s) s (init_dstate t)) in D.
  assert (Z0 : fold_left ev_mask log 0 = 0).
  { apply fold_ev_mask_zero. split; [reflexivity|]. intros idx raw Hin.
    apply log_attempt_len in Hin. lia. }
  destruct (lemmings_write_mfm tr t s) as [[res t2] s2].
  destruct Hh as [_ Hh]. destruct D as (X & _ & D). rewrite Z0 in X, D.
  destruct res as [blk|]; [destruct D as [D _]; contradiction D; reflexivity|].
  split; [reflexivity|split; [apply Hh; reflexivity|]].
  destruct X as [X|X]; [exact X|discriminate X].
Qed.

Lemma write_mfm_short_stream_null_witness :
  (length (rest (mk_stream 0 0 (bits_msb 16 0x4489 ++ bits_msb 32 0x552aaaaa)))
     <= 32 * 3079)%nat /\
  let '(res, t2, s2) :=
    lemmings_write_mfm 0 th0 (mk_stream 0 0 (bits_msb 16 0x4489 ++ bits_msb 32 0x552aaaaa))
    return Prop in
  res = None /\ t2 = th0 /\ rest s2 = [].
Proof.
  assert (H : (length (rest (mk_stream 0 0 (bits_msb 16 0x4489 ++ bits_msb 32 0x552aaaaa)))
                <= 32 * 3079)%nat)
    by (cbn [rest]; rewrite length_app, !length_bits_msb; lia).
  split; [exact H|]. exact (write_mfm_short_stream_null 0 th0 _ H).
Defined.

Lemma bits_msb_S : forall n x,
  bits_msb (S n) x = Z.testbit x (Z.of_nat n) :: bits_msb n x.
Proof.
  intros n x. unfold bits_msb. rewrite seq_S, rev_app_distr. reflexivity.
Qed.

Lemma bits_val_msb : forall n x, bits_val (bits_msb n x) = x mod 2 ^ Z.of_nat n.
Proof.
  induction n as [|n IH]; intros x; [rewrite Z.mod_1_r; reflexivity|].
  rewrite bits_msb_S, bits_val_cons, length_bits_msb, IH.
  rewrite Nat2Z.inj_succ, Z.pow_succ_r by lia.
  rewrite (Z.mul_comm 2 (2 ^ Z.of_nat n)), Z.rem_mul_r by (lia || (apply Z.pow_nonzero; lia)).
  rewrite Z.testbit_spec' by lia. ring.
Qed.

(** The decoder's reading of 32-bit cell groups: each group, most
    significant cell first, becomes one demodulated word. *)
Lemma read_raw_dat_words : forall ds s r,
  Forall (fun d => 0 <= d < 2 ^ 32) ds ->
  rest s = flat_map (bits_msb 32) ds ++ r ->
  exists s', read_raw_dat (length ds) s = (Some (flat_map (fun d => htons (demod d)) ds), s')
             /\ rest s' = r.
Proof.
  induction ds as [|d ds IH]; intros s r Hd Hs.
  - exists s. split; [reflexivity | exact Hs].
  - inversion Hd as [|? ? Hd0 Hds]; subst.
    cbn [flat_map] in Hs. rewrite <- app_assoc in Hs.
    pose proof (next_bits_app _ _ _ Hs) as Hn. rewrite length_bits_msb in Hn.
    cbn [length read_raw_dat]. rewrite Hn. cbn [Z.eqb].
    destruct (IH (mk_stream (fold_left shift_in (bits_msb 32 d) (word s))
                  (index_offset s + Z.of_nat 32) (flat_map (bits_msb 32) ds ++ r)) r Hds eq_refl)
      as [s' [E Hr]].
    rewrite E. exists s'. split; [|exact Hr].
    cbn [word option_map flat_map]. rewrite shift_in_32 by apply length_bits_msb.
    rewrite bits_val_msb, Z.mod_small by exact Hd0. reflexivity.
Qed.

Lemma ok_all : forall raw, forallb (sector_ok raw) (seq 0 6) = true ->
  ok_mask raw 0 6 = 63 /\ ok_count raw 0 6 = 6.
Proof.
  intros raw H. cbn [seq forallb] in H.
  repeat match type of H with
         | _ && _ = true => apply andb_true_iff in H as [? H]
         end.
  cbn [ok_mask ok_count]. repeat match goal with E : sector_ok _ _ = true |- _ => rewrite E; clear E end.
  split; reflexivity.
Qed.

Lemma concat_slots : forall n l, length l = (n * 1024)%nat ->
  l = concat (map (fun k => slot k l) (seq 0 n)).
Proof.
  induction n as [|n IH]; intros l Hl.
  - destruct l; [reflexivity|discriminate].
  - cbn [seq map concat]. rewrite <- seq_shift, map_map.
    rewrite (map_ext (fun x => slot (S x) l) (fun x => slot x (skipn 1024 l)))
      by (intros x; rewrite slot_skipn; reflexivity).
    rewrite <- IH by (rewrite length_skipn; lia).
    unfold slot at 1. rewrite Nat.mul_0_l, skipn_O. symmetry. apply firstn_skipn.
Qed.

Lemma iter_full : forall s st b r, valid_blocks st = 63 -> rest s = b :: r ->
  exists s', rest s' = r /\ write_mfm_iter s st = mk_out true s' st [].
Proof.
  intros s st b r Hv Hs. unfold write_mfm_iter, stream_next_bit. rewrite Hs, b2z_neq_m1, Hv.
  eexists. split; [|reflexivity]. reflexivity.
Qed.

Lemma loop_step : forall f s st,
  write_mfm_loop (S f) s st =
  if it_done (write_mfm_iter s st)
  then (it_s (write_mfm_iter s st), it_st (write_mfm_iter s st))
  else write_mfm_loop f (it_s (write_mfm_iter s st)) (it_st (write_mfm_iter s st)).
Proof. reflexivity. Qed.

Lemma loop_clean_track : forall t io ds b r,
  length ds = 3078%nat -> Forall (fun d => 0 <= d < 2 ^ 32) ds ->
  let raw := flat_map (fun d => htons (demod d)) ds in
  ok_mask raw 0 6 = 63 ->
  let S0 := mk_stream 0 io (bits_msb 16 0x4489 ++ bits_msb 32 0x552aaaaa
                            ++ flat_map (bits_msb 32) ds ++ b :: r) in
  exists s2, rest s2 = r /\
    write_mfm_loop (loop_fuel S0) S0 (init_dstate t) =
    (s2, after_checks ((io + 1) mod 2 ^ 32) raw (init_dstate t)).
Proof.
  intros t io ds b r Hl Hd raw Hmask S0.
  assert (Hv : valid_blocks (after_checks ((io + 1) mod 2 ^ 32) raw (init_dstate t)) = 63)
    by (rewrite (proj1 (after_checks_valid _ _ _)), Hmask; reflexivity).
  replace (loop_fuel S0)
    with (length mark15 + S (S (33 + length (flat_map (bits_msb 32) ds) + length r)))%nat
    by (unfold loop_fuel, S0; cbn [rest]; rewrite !length_app, !length_bits_msb;
        cbn [length mark15]; lia).
  unfold S0. rewrite mark_bits, <- app_assoc. cbn [app].
  rewrite loop_scan by reflexivity.
  change (fold_left shift_in mark15 0) with 8772. change (Z.of_nat (length mark15)) with 15.
  rewrite loop_step, iter_match by reflexivity. cbv zeta.
  set (s1 := mk_stream (shift_in 8772 true) (io + 15 + 1)
               (bits_msb 32 0x552aaaaa ++ flat_map (bits_msb 32) ds ++ b :: r)).
  pose proof (next_bits_app _ _ s1 eq_refl) as Hn. rewrite length_bits_msb in Hn.
  destruct (read_raw_dat_words ds
              (mk_stream (fold_left shift_in (bits_msb 32 0x552aaaaa) (word s1))
                 (index_offset s1 + Z.of_nat 32) (flat_map (bits_msb 32) ds ++ b :: r))
              (b :: r) Hd eq_refl) as [s3 [E3 Hr3]].
  rewrite Hl in E3.
  assert (Hw : word (mk_stream (fold_left shift_in (bits_msb 32 0x552aaaaa) (word s1))
                       (index_offset s1 + Z.of_nat 32) (flat_map (bits_msb 32) ds ++ b :: r))
               = 0x552aaaaa)
    by (cbn [word]; rewrite shift_in_32 by apply length_bits_msb; reflexivity).
  rewrite (sync_attempt_ok _ _ _ _ _ _ Hn Hw E3).
  cbn [it_done it_s it_st].
  replace ((io + 15 + 1 - 15) mod 2 ^ 32) with ((io + 1) mod 2 ^ 32) by (f_equal; lia).
  fold raw. rewrite loop_step.
  destruct (iter_full s3 _ b r Hv Hr3) as [s4 [Hr4 E4]]. rewrite E4.
  cbn [it_done it_s it_st]. exists s4. split; [exact Hr4|reflexivity].
Qed.

(** A clean track, read by a reset reader: the mark, the second mark word
    and 3078 32-bit cell groups whose six sectors all pass their checksum,
    then at least one more bit.  The decoder returns the six sector bodies
    in order, records the counter just after the mark's first bit as
    [data_bitoff], sets the full map [63] and the 1024 x 6 geometry, keeps
    [total_bits], and stops after reading exactly one bit past the data. *)
Theorem write_mfm_clean_track : forall tr t io ds b r,
  length ds = 3078%nat -> Forall (fun d => 0 <= d < 2 ^ 32) ds ->
  let raw := flat_map (fun d => htons (demod d)) ds in
  forallb (sector_ok raw) (seq 0 6) = true ->
  exists s2, rest s2 = r /\
    lemmings_write_mfm tr t
      (mk_stream 0 io (bits_msb 16 0x4489 ++ bits_msb 32 0x552aaaaa
                       ++ flat_map (bits_msb 32) ds ++ b :: r)) =
    (Some (concat (map (raw_sector_body raw) (seq 0 6))),
     mk_th ((io + 1) mod 2 ^ 32) 1024 6 6144 (total_bits t) 63, s2).
Proof.
  intros tr t io ds b r Hl Hd raw Hok.
  destruct (ok_all raw Hok) as [Hmask Hcount].
  destruct (loop_clean_track t io ds b r Hl Hd Hmask) as [s2 [Hr2 L]].
  cbv zeta in L. exists s2. split; [exact Hr2|].
  pose proof (write_mfm_result tr t (mk_stream 0 io (bits_msb 16 0x4489 ++ bits_msb 32 0x552aaaaa
                                     ++ flat_map (bits_msb 32) ds ++ b :: r))) as R.
  rewrite L in R. cbv beta iota in R. fold raw in R. rewrite R. clear R L.
  set (st := after_checks ((io + 1) mod 2 ^ 32) raw (init_dstate t)).
  assert (Hv : valid_blocks st = 63)
    by (subst st; rewrite (proj1 (after_checks_valid _ _ _)), Hmask; reflexivity).
  rewrite Hv. cbn [Z.eqb].
  assert (Hraw : length raw = (2 * 3078)%nat).
  { subst raw. rewrite (length_flat_map_const _ _ _ 2), Hl; [reflexivity|].
    intros x _. apply htons_length. }
  destruct (after_checks_spec ((io + 1) mod 2 ^ 32) raw (init_dstate t) Hraw length_sentinel)
    as (Hb & _ & Hs & Hth). fold st in Hb, Hs, Hth.
  rewrite Hcount in Hth. cbn [Z.eqb] in Hth. rewrite Hth.
  cbn [th init_dstate set_data_bitoff data_bitoff total_bits].
  rewrite (concat_slots 6 (block st) Hb).
  replace (map (fun k => slot k (block st)) (seq 0 6)) with (map (raw_sector_body raw) (seq 0 6));
    [reflexivity|].
  apply map_ext_in. intros k Hk. apply in_seq in Hk.
  rewrite (Hs k ltac:(lia)).
  rewrite forallb_forall in Hok. rewrite (Hok k) by (apply in_seq; lia). reflexivity.
Qed.
Lemma write_mfm_clean_track_witness :
  length (repeat 0 3078) = 3078%nat /\
  Forall (fun d => 0 <= d < 2 ^ 32) (repeat 0 3078) /\
  forallb (sector_ok (flat_map (fun d => htons (demod d)) (repeat 0 3078))) (seq 0 6) = true /\
  exists s2, rest s2 = [] /\
    lemmings_write_mfm 0 th0
      (mk_stream 0 0 (bits_msb 16 0x4489 ++ bits_msb 32 0x552aaaaa
                      ++ flat_map (bits_msb 32) (repeat 0 3078) ++ [true])) =
    (Some (concat (map (raw_sector_body (flat_map (fun d => htons (demod d)) (repeat 0 3078)))
                       (seq 0 6))),
     mk_th ((0 + 1) mod 2 ^ 32) 1024 6 6144 (total_bits th0) 63, s2).
Proof.
  assert (H1 : length (repeat 0 3078) = 3078%nat) by apply repeat_length.
  assert (H2 : Forall (fun d => 0 <= d < 2 ^ 32) (repeat 0 3078))
    by (apply Forall_forall; intros x Hx; apply repeat_spec in Hx; subst x; lia).
  assert (H3 : forallb (sector_ok (flat_map (fun d => htons (demod d)) (repeat 0 3078)))
                 (seq 0 6) = true) by reflexivity.
  split; [exact H1|split; [exact H2|split; [exact H3|]]].
  exact (write_mfm_clean_track 0 th0 0 (repeat 0 3078) true [] H1 H2 H3).
Defined.

Lemma iter_indep : forall s st st',
  block st = block st' -> valid_blocks st = valid_blocks st' ->
  it_done (write_mfm_iter s st) = it_done (write_mfm_iter s st') /\
  it_s (write_mfm_iter s st) = it_s (write_mfm_iter s st') /\
  block (it_st (write_mfm_iter s st)) = block (it_st (write_mfm_iter s st')) /\
  valid_blocks (it_st (write_mfm_iter s st)) = valid_blocks (it_st (write_mfm_iter s st')).
Proof.
  intros s st st' Hb Hv. unfold write_mfm_iter.
  destruct (stream_next_bit s) as [x s1].
  destruct (x =? -1); [cbn; auto|].
  rewrite Hv. destruct (valid_blocks st' =? 63); [cbn; auto|].
  destruct (negb (word s1 mod 2 ^ 16 =? 0x4489)); [cbn; auto|].
  cbn [it_done it_s it_st]. unfold sync_attempt.
  destruct (stream_next_bits s1 32) as [y s2].
  destruct (y =? -1); [cbn; auto|].
  destruct (negb (word s2 =? 0x552aaaaa)); [cbn; auto|].
  destruct (read_raw_dat 3078 s2) as [[raw|] s3]; [|cbn; auto].
  rewrite Hb, Hv. destruct (check_sectors 0 6 raw (block st') (valid_blocks st') 0) as [[? ?] ?].
  cbn. auto.
Qed.

Lemma loop_indep : forall fuel s st st',
  block st = block st' -> valid_blocks st = valid_blocks st' ->
  fst (write_mfm_loop fuel s st) = fst (write_mfm_loop fuel s st') /\
  block (snd (write_mfm_loop fuel s st)) = block (snd (write_mfm_loop fuel s st')) /\
  valid_blocks (snd (write_mfm_loop fuel s st)) = valid_blocks (snd (write_mfm_loop fuel s st')).
Proof.
  induction fuel as [|f IH]; intros s st st' Hb Hv; [cbn; auto|].
  rewrite !loop_step.
  destruct (iter_indep s st st' Hb Hv) as (Ed & Es & Eb & Ev).
  rewrite Ed, Es. destruct (it_done (write_mfm_iter s st')); [cbn; auto|].
  apply IH; assumption.
Qed.

(** The block (or [NULL]) and the final stream position of the decoder do
    not depend on the header it is given nor on the track number, and
    neither does the validity map it writes. *)
Theorem write_mfm_header_independent : forall tr tr' t t' s,
  let '(res, t2, s2) := lemmings_write_mfm tr t s in
  let '(res', t2', s2') := lemmings_write_mfm tr' t' s in
  res = res' /\ s2 = s2' /\
  (res <> None -> track_valid_sector_map t2 = track_valid_sector_map t2').
Proof.
  intros tr tr' t t' s.
  pose proof (write_mfm_result tr t s) as R. pose proof (write_mfm_result tr' t' s) as R'.
  destruct (loop_indep (loop_fuel s) s (init_dstate t) (init_dstate t') eq_refl eq_refl)
    as (Es & Eb & Ev).
  destruct (write_mfm_loop (loop_fuel s) s (init_dstate t)) as [s2 st2].
  destruct (write_mfm_loop (loop_fuel s) s (init_dstate t')) as [s2' st2'].
  cbn [fst snd] in Es, Eb, Ev. rewrite R, R', Ev, Eb, Es.
  destruct (valid_blocks st2' =? 0).
  - split; [reflexivity|split; [reflexivity|]]. intros H. contradiction H. reflexivity.
  - split; [reflexivity|split; reflexivity].
Qed.

(** The demodulation reads only the data cells of the 32-bit window:
    clearing its clock cells (the odd bit positions) does not change the
    decoded word. *)
Theorem demod_ignores_clock_bits : forall w, demod (Z.land w 0x55555555) = demod w.
Proof.
  intros w. apply Z.bits_inj'. intros n Hn.
  destruct (Z.lt_ge_cases n 16) as [Hlt|Hge]; [|rewrite !demod_high by exact Hge; reflexivity].
  destruct (Z_of_nat_complete n Hn) as [m ->].
  assert (Hm : (m < 16)%nat) by lia.
  destruct (Nat.Even_or_Odd m) as [[i ->]|[i ->]].
  - rewrite !(proj2 (demod_bits _ i ltac:(lia))), Z.land_spec.
    replace (Z.testbit 0x55555555 (Z.of_nat (2 * i))) with true; [apply andb_true_r|].
    symmetry. do 8 (destruct i as [|i]; [reflexivity|]). lia.
  - rewrite !(proj1 (demod_bits _ i ltac:(lia))), Z.land_spec.
    replace (Z.testbit 0x55555555 (Z.of_nat (16 + 2 * i))) with true; [apply andb_true_r|].
    symmetry. do 8 (destruct i as [|i]; [reflexivity|]). lia.
Qed.

(** The decoder stops before the end of the stream only when all six
    sectors have been validated: if bits are left unread, it returned a
    block with the full map [63]. *)
Theorem write_mfm_early_stop_full : forall tr t s,
  let '(res, t2, s2) := lemmings_write_mfm tr t s in
  rest s2 <> [] -> exists blk, res = Some blk /\ track_valid_sector_map t2 = 63.
Proof.
  intros tr t s. pose proof (decode_spec tr t s) as D. cbv zeta in D.
  destruct (lemmings_write_mfm tr t s) as [[res t2] s2].
  intros Hr. destruct D as (X & _ & D).
  destruct X as [X|X]; [contradiction|].
  destruct res as [blk|].
  - exists blk. split; [reflexivity|]. destruct D as (_ & _ & _ & _ & _ & _ & Hm).
    rewrite Hm. exact X.
  - rewrite D in X. discriminate X.
Qed.
